(** * The NLQ inference adapters

    A shallow embedding of the two subprocess scripts
    [src/nlq/llama-inference.py] (CPU/CUDA adapter) and
    [src/nlq/mlx-inference.py] (Apple-Silicon adapter).

    Each script reads a JSON request from standard input, calls an
    inference library twice (load, generate), post-processes the text
    and prints one JSON response.  The libraries, the JSON codec and the
    interpreter's error wording are collaborators of the scripts: each
    is an interface ([LlamaCpp], [MlxLm], [Json], [Interpreter]) that
    the two [main] functions are written against, and whose members may
    fail with any instance of [Exception].
    Everything the scripts do themselves (dictionary access, the default
    of [maxTokens], the arguments of the library calls, [str.strip],
    [str.find], slicing, the stop-sequence loop, the catch-all handler
    and the exit status) is written out. *)

From Stdlib Require Import ZArith Lia Ascii String Floats.SpecFloat.
From stdpp Require Import gmap list.

Set Warnings "-register-all".
Local Open Scope Z_scope.

(** ** Python strings

    A Python [str] is a sequence of Unicode code points. *)

Module PyStr.

Definition pystr := list N.

(** A literal of the source, given by its ASCII spelling. *)
Definition lit (s : string) : pystr :=
  map N_of_ascii (list_ascii_of_string s).

(** The escape [\n] of a Python literal. *)
Definition LF : N := 0x0A%N.

(** [str.isspace] on one code point: the table behind
    [Py_UNICODE_ISSPACE], which is what [str.strip()] without argument
    removes. *)
Definition isspace (c : N) : bool :=
  ((0x09 <=? c) && (c <=? 0x0D) ||
   (0x1C <=? c) && (c <=? 0x20) ||
   (c =? 0x85) || (c =? 0xA0) || (c =? 0x1680) ||
   (0x2000 <=? c) && (c <=? 0x200A) ||
   (c =? 0x2028) || (c =? 0x2029) || (c =? 0x202F) ||
   (c =? 0x205F) || (c =? 0x3000))%N.

Fixpoint lstrip (s : pystr) : pystr :=
  match s with
  | c :: s' => if isspace c then lstrip s' else s
  | [] => []
  end.

Definition rstrip (s : pystr) : pystr := reverse (lstrip (reverse s)).

(** [s.strip()] *)
Definition strip (s : pystr) : pystr := rstrip (lstrip s).

(** [s.startswith(sub)] *)
Fixpoint startswith (s sub : pystr) {struct sub} : bool :=
  match sub, s with
  | [], _ => true
  | _ :: _, [] => false
  | a :: sub', b :: s' => (a =? b)%N && startswith s' sub'
  end.

(** [s.find(sub)] scans left to right; [find_from s sub i] is the scan
    once the first [i] code points have been passed over. *)
Fixpoint find_from (s sub : pystr) (i : Z) : Z :=
  if startswith s sub then i
  else match s with
       | [] => -1
       | _ :: s' => find_from s' sub (i + 1)
       end.

(** [s.find(sub)]: the lowest index where [sub] occurs, or [-1]. *)
Definition find (s sub : pystr) : Z := find_from s sub 0.

(** [s[:i]] with Python's rule for a negative or too large bound. *)
Definition slice_to (s : pystr) (i : Z) : pystr :=
  let n := Z.of_nat (length s) in
  let j := if i <? 0 then Z.max 0 (i + n) else Z.min i n in
  take (Z.to_nat j) s.

End PyStr.
Export PyStr.

(** ** Stop-sequence trimming of the Apple-Silicon adapter *)

Module Trim.

(** The list literal of the [for] loop, mlx-inference.py line 43. *)
Definition stop_sequences : list pystr :=
  [ lit "<|user|>"; lit "<|end|>"; lit "<|endoftext|>"; lit "<|im_end|>";
    [LF; LF] ].

(** One iteration of the loop body:
<<
    idx = text.find(stop)
    if idx != -1:
        text = text[:idx]
>> *)
Definition stop_at (text stop : pystr) : pystr :=
  let idx := find text stop in
  if negb (idx =? -1) then slice_to text idx else text.

(** The whole [for] loop, lines 43 to 46. *)
Definition stop_loop (text : pystr) : pystr :=
  fold_left stop_at stop_sequences text.

(** Lines 40 to 48 on a [str] response: the strip of line 40, the loop,
    and the strip inside the response of line 48. *)
Definition clean_response (response : pystr) : pystr :=
  let text := strip response in
  let text := stop_loop text in
  strip text.

End Trim.
Export Trim.

(** ** Python values, exceptions and the process *)

Module Py.

(** The values that cross the scripts' boundaries: what [json.loads]
    builds and what the libraries hand back. *)
Inductive value :=
| VNone
| VBool (b : bool)
| VInt (n : Z)
| VFloat (f : spec_float)
| VStr (s : pystr)
| VList (l : list value)
| VDict (d : gmap pystr value).

(** Instances of [Exception]: the ones the scripts' own operations
    raise, and [LibraryError] for whatever a collaborator raises. *)
Inductive exception :=
| KeyError (key : value)
| IndexError
| TypeError (operand : value)
| AttributeError (receiver : value) (attribute : pystr)
| LibraryError (message : pystr).

(** What can unwind the stack.  [SystemExit] derives from
    [BaseException] only, so [except Exception] lets it through. *)
Inductive raised :=
| Exception (e : exception)
| SystemExit (code : Z).

(** The library calls a script makes, with the arguments it passes. *)
Inductive call :=
| ImportLlamaCpp
| LlamaNew (model_path : value) (n_ctx n_gpu_layers : Z) (verbose : bool)
| LlamaCall (prompt max_tokens : value) (stop : list pystr) (echo : bool)
| ImportMlxLm
| MlxLoad (path_or_hf_repo : pystr) (adapter_path : value)
| MlxGenerate (prompt max_tokens : value) (verbose : bool).

(** The observable side of one run: the lines printed so far and the
    library calls made so far, both oldest first. *)
Record process := Process { stdout : list pystr; calls : list call }.

Definition start : process := Process [] [].

(** Statements: state passing over [process], with exceptions. *)
Definition M (A : Type) : Type := process -> process * (raised + A).

#[export] Instance M_ret : MRet M := fun _ x p => (p, inr x).

#[export] Instance M_bind : MBind M := fun _ _ f m p =>
  match m p with
  | (p', inr x) => f x p'
  | (p', inl r) => (p', inl r)
  end.

Definition raise {A} (e : exception) : M A := fun p => (p, inl (Exception e)).

(** [sys.exit(code)] *)
Definition sys_exit {A} (code : Z) : M A := fun p => (p, inl (SystemExit code)).

(** [print(line)] *)
Definition print (line : pystr) : M unit := fun p =>
  (Process (stdout p ++ [line]) (calls p), inr tt).

(** A call into a library: it is logged, then its outcome is taken. *)
Definition extern {A} (c : call) (outcome : exception + A) : M A := fun p =>
  (Process (stdout p) (calls p ++ [c]),
   match outcome with inl e => inl (Exception e) | inr x => inr x end).

(** A collaborator that is not logged ([json.loads]). *)
Definition lift {A} (outcome : exception + A) : M A :=
  match outcome with inl e => raise e | inr x => mret x end.

(** [try: body / except Exception as e: handler(e)] *)
Definition try_except {A} (body : M A) (handler : exception -> M A) : M A :=
  fun p =>
    match body p with
    | (p', inl (Exception e)) => handler e p'
    | other => other
    end.

(** [v[key]] for a [str] key. *)
Definition getitem (v : value) (key : pystr) : M value :=
  match v with
  | VDict d =>
      match d !! key with
      | Some x => mret x
      | None => raise (KeyError (VStr key))
      end
  | _ => raise (TypeError v)
  end.

(** Sequence indexing [l[i]], negative [i] counting from the end. *)
Definition index {A} (l : list A) (i : Z) : option A :=
  let n := Z.of_nat (length l) in
  let j := if i <? 0 then i + n else i in
  if (0 <=? j) && (j <? n) then l !! Z.to_nat j else None.

(** [v[i]] for an [int] index.  The dictionaries of [value] have [str]
    keys only, so an integer is never among them. *)
Definition getitem_int (v : value) (i : Z) : M value :=
  match v with
  | VList l =>
      match index l i with Some x => mret x | None => raise IndexError end
  | VStr s =>
      match index s i with Some c => mret (VStr [c]) | None => raise IndexError end
  | VDict _ => raise (KeyError (VInt i))
  | _ => raise (TypeError v)
  end.

(** [v.get(key, default)] *)
Definition get (v : value) (key : pystr) (fallback : value) : M value :=
  match v with
  | VDict d => mret (default fallback (d !! key))
  | _ => raise (AttributeError v (lit "get"))
  end.

(** [v.strip()] *)
Definition strip_method (v : value) : M pystr :=
  match v with
  | VStr s => mret (strip s)
  | _ => raise (AttributeError v (lit "strip"))
  end.

(** How the process ends: a normal return of the script exits with 0,
    [SystemExit(code)] with [code], an uncaught exception with 1. *)
Definition exit_status {A} (r : raised + A) : Z :=
  match r with
  | inr _ => 0
  | inl (SystemExit code) => code
  | inl (Exception _) => 1
  end.

(** The collaborators. *)
Class Json := {
  json_loads : pystr -> exception + value;
  json_dumps : value -> pystr
}.

(** [str(e)] *)
Class Interpreter := {
  str_of : exception -> pystr
}.

(** [llama_cpp]: the import, the constructor [Llama(...)] and the call
    of the object it returns. *)
Class LlamaCpp := {
  llm_object : Type;
  import_llama_cpp : exception + unit;
  Llama : value -> Z -> Z -> bool -> exception + llm_object;
  llm_call : llm_object -> value -> value -> list pystr -> bool ->
             exception + value
}.

(** [mlx_lm]: the import, [load] and [generate]. *)
Class MlxLm := {
  mlx_model : Type;
  mlx_tokenizer : Type;
  import_mlx_lm : exception + unit;
  load : pystr -> value -> exception + (mlx_model * mlx_tokenizer);
  generate : mlx_model -> mlx_tokenizer -> value -> value -> bool ->
             exception + value
}.

(** The two response objects. *)
Definition success_response (text : pystr) : value :=
  VDict {[ lit "success" := VBool true; lit "result" := VStr text ]}.

Definition failure_response (message : pystr) : value :=
  VDict {[ lit "success" := VBool false; lit "error" := VStr message ]}.

(** The logged calls, as the scripts spell them. *)
Definition import_Llama `{LlamaCpp} : M unit :=
  extern ImportLlamaCpp import_llama_cpp.

Definition new_Llama `{LlamaCpp} (model_path : value) (n_ctx n_gpu_layers : Z)
    (verbose : bool) : M llm_object :=
  extern (LlamaNew model_path n_ctx n_gpu_layers verbose)
         (Llama model_path n_ctx n_gpu_layers verbose).

Definition call_llm `{LlamaCpp} (llm : llm_object) (prompt max_tokens : value)
    (stop : list pystr) (echo : bool) : M value :=
  extern (LlamaCall prompt max_tokens stop echo)
         (llm_call llm prompt max_tokens stop echo).

Definition import_load_generate `{MlxLm} : M unit :=
  extern ImportMlxLm import_mlx_lm.

Definition call_load `{MlxLm} (path_or_hf_repo : pystr) (adapter_path : value)
    : M (mlx_model * mlx_tokenizer) :=
  extern (MlxLoad path_or_hf_repo adapter_path)
         (load path_or_hf_repo adapter_path).

Definition call_generate `{MlxLm} (model : mlx_model) (tokenizer : mlx_tokenizer)
    (prompt max_tokens : value) (verbose : bool) : M value :=
  extern (MlxGenerate prompt max_tokens verbose)
         (generate model tokenizer prompt max_tokens verbose).

(** One run of a script from a fresh process: what was printed, which
    library calls were made, and the exit status. *)
Record run_result := RunResult {
  printed : list pystr;
  called : list call;
  status : Z
}.

Definition run (script : M unit) : run_result :=
  let '(p, r) := script start in
  RunResult (stdout p) (calls p) (exit_status r).

End Py.
Export Py.

(** ** llama-inference.py *)

Module llama_inference.
Section script.
Context `{Json, Interpreter, LlamaCpp}.

(** The [stop=] list of line 36. *)
Definition stop : list pystr :=
  [ lit "<|user|>"; lit "<|end|>"; lit "<|endoftext|>"; [LF; LF] ].

(** Lines 16 to 41, the body of the [try]. *)
Definition body (stdin : pystr) : M unit :=
  input_data ← lift (json_loads stdin);
  model_path ← getitem input_data (lit "modelPath");
  prompt ← getitem input_data (lit "prompt");
  max_tokens ← get input_data (lit "maxTokens") (VInt 100);
  import_Llama;;
  llm ← new_Llama model_path 2048 (-1) false;
  output ← call_llm llm prompt max_tokens stop false;
  choices ← getitem output (lit "choices");
  choice ← getitem_int choices 0;
  raw ← getitem choice (lit "text");
  text ← strip_method raw;
  print (json_dumps (success_response text)).

(** Lines 43 to 45, the [except Exception as e] clause. *)
Definition handler (e : exception) : M unit :=
  print (json_dumps (failure_response (str_of e)));;
  sys_exit 1.

Definition main (stdin : pystr) : M unit :=
  try_except (body stdin) handler.

End script.
End llama_inference.

(** ** mlx-inference.py *)

Module mlx_inference.
Section script.
Context `{Json, Interpreter, MlxLm}.

Definition BASE_MODEL : pystr := lit "mlx-community/Qwen2.5-7B-Instruct-4bit".

(** Lines 19 to 48, the body of the [try]. *)
Definition body (stdin : pystr) : M unit :=
  input_data ← lift (json_loads stdin);
  adapter_path ← getitem input_data (lit "modelPath");
  prompt ← getitem input_data (lit "prompt");
  max_tokens ← get input_data (lit "maxTokens") (VInt 100);
  import_load_generate;;
  '(model, tokenizer) ← call_load BASE_MODEL adapter_path;
  response ← call_generate model tokenizer prompt max_tokens false;
  text ← strip_method response;
  let text := stop_loop text in
  print (json_dumps (success_response (strip text))).

(** Lines 50 to 52, the [except Exception as e] clause. *)
Definition handler (e : exception) : M unit :=
  print (json_dumps (failure_response (str_of e)));;
  sys_exit 1.

Definition main (stdin : pystr) : M unit :=
  try_except (body stdin) handler.

End script.
End mlx_inference.

(** ** The post-processing as the specification words it

    The specification describes the Apple-Silicon post-processing by its
    effect: for each sentinel in turn, cut the current text just before
    the first occurrence of the sentinel if there is one, then strip the
    whitespace at both ends.  These relations say that, without
    reference to [find], slices or [lstrip]. *)

Module Spec.

(** [part] occurs in [text], [i] code points from its start. *)
Definition occurs_at (part text : pystr) (i : nat) : Prop :=
  ∃ before after, text = before ++ part ++ after ∧ length before = i.

(** [part] is a contiguous substring of [text]. *)
Definition substring_of (part text : pystr) : Prop :=
  ∃ before after, text = before ++ part ++ after.

Definition first_occurrence (part text : pystr) (i : nat) : Prop :=
  occurs_at part text i ∧ ∀ j, occurs_at part text j → (i ≤ j)%nat.

(** "If found, truncate the text to end just before that sentinel's
    position". *)
Definition truncated (sentinel text text' : pystr) : Prop :=
  (∃ i, first_occurrence sentinel text i ∧ text' = take i text) ∨
  (¬ substring_of sentinel text ∧ text' = text).

(** The sentinels are processed in order, each on the current text. *)
Fixpoint scanned (sentinels : list pystr) (text text' : pystr) : Prop :=
  match sentinels with
  | [] => text' = text
  | sentinel :: rest =>
      ∃ current, truncated sentinel text current ∧ scanned rest current text'
  end.

(** [text'] is [text] without its leading and trailing whitespace. *)
Definition stripped (text text' : pystr) : Prop :=
  ∃ leading trailing,
    text = leading ++ text' ++ trailing ∧
    Forall (λ c, isspace c = true) leading ∧
    Forall (λ c, isspace c = true) trailing ∧
    (∀ c, head text' = Some c → isspace c = false) ∧
    (∀ c, last text' = Some c → isspace c = false).

(** The five sentinels "in a fixed priority order". *)
Definition sentinels : list pystr :=
  [ lit "<|user|>"; lit "<|end|>"; lit "<|endoftext|>"; lit "<|im_end|>";
    [LF; LF] ].

(** "Scan the output text ... Finally strip leading/trailing
    whitespace": [result] is what the description yields from [text]. *)
Definition postprocessed (text result : pystr) : Prop :=
  ∃ current, scanned sentinels text current ∧ stripped current result.

End Spec.

(** ** Runs that reach the generated text *)

Section reaching.
Context `{Json, LlamaCpp, MlxLm}.

(** The request parses to an object [d] that holds both required
    fields. *)
Definition request_of (stdin : pystr) (d : gmap pystr value)
    (model_path prompt : value) : Prop :=
  json_loads stdin = inr (VDict d) ∧
  d !! lit "modelPath" = Some model_path ∧
  d !! lit "prompt" = Some prompt.

(** The CPU/CUDA run gets as far as the completion [output]. *)
Definition llama_completes (stdin : pystr) (output : value) : Prop :=
  ∃ d model_path prompt llm,
    request_of stdin d model_path prompt ∧
    import_llama_cpp = inr tt ∧
    Llama model_path 2048 (-1) false = inr llm ∧
    llm_call llm prompt (default (VInt 100) (d !! lit "maxTokens"))
      llama_inference.stop false = inr output.

(** [output['choices'][0]['text']] is the [str] [text]. *)
Definition completion_text (output : value) (text : pystr) : Prop :=
  ∃ fields choice others,
    output = VDict fields ∧
    fields !! lit "choices" = Some (VList (VDict choice :: others)) ∧
    choice !! lit "text" = Some (VStr text).

(** The Apple-Silicon run gets as far as the generated [response]. *)
Definition mlx_generates (stdin : pystr) (response : value) : Prop :=
  ∃ d adapter_path prompt model tokenizer,
    request_of stdin d adapter_path prompt ∧
    import_mlx_lm = inr tt ∧
    load mlx_inference.BASE_MODEL adapter_path = inr (model, tokenizer) ∧
    generate model tokenizer prompt
      (default (VInt 100) (d !! lit "maxTokens")) false = inr response.

End reaching.

(** The calls each script makes when nothing fails, in order. *)
Definition llama_plan (d : gmap pystr value) (model_path prompt : value)
    : list call :=
  [ ImportLlamaCpp;
    LlamaNew model_path 2048 (-1) false;
    LlamaCall prompt (default (VInt 100) (d !! lit "maxTokens"))
      llama_inference.stop false ].

Definition mlx_plan (d : gmap pystr value) (adapter_path prompt : value)
    : list call :=
  [ ImportMlxLm;
    MlxLoad mlx_inference.BASE_MODEL adapter_path;
    MlxGenerate prompt (default (VInt 100) (d !! lit "maxTokens")) false ].

Section shapes.
Context `{Json, Interpreter}.

(** The calls made so far are none, or the first few of the plan for
    the request that was read. *)
Definition follows_plan (stdin : pystr)
    (plan : gmap pystr value → value → value → list call)
    (made : list call) : Prop :=
  made = [] ∨
  ∃ d model_path prompt,
    request_of stdin d model_path prompt ∧
    made `prefix_of` plan d model_path prompt.

(** What the body of a [try] has printed when it stops: one success
    object if it returned, nothing if it raised; and it never exits. *)
Definition body_outcome (p : process) (r : raised + unit) : Prop :=
  match r with
  | inr _ => ∃ text, stdout p = [json_dumps (success_response text)]
  | inl (Exception _) => stdout p = []
  | inl (SystemExit _) => False
  end.

(** The response contract of one invocation, by how the [try] body
    ends: one success object and status 0 when it returns, one failure
    object carrying [str(e)] and status 1 when it raises [e]. *)
Definition responds_once (body main : M unit) : Prop :=
  match (body start).2 with
  | inr _ =>
      ∃ text, printed (run main) = [json_dumps (success_response text)] ∧
              status (run main) = 0
  | inl (Exception e) =>
      printed (run main) = [json_dumps (failure_response (str_of e))] ∧
      status (run main) = 1
  | inl (SystemExit _) => False
  end.

End shapes.

(** [after m p Q]: running [m] from the process [p] ends in a process
    and an outcome that satisfy [Q]. *)
Definition after {A} (m : M A) (p : process)
    (Q : process → raised + A → Prop) : Prop :=
  Q (m p).1 (m p).2.

(** The [max_tokens] argument of a call, for the two generation calls. *)
Definition max_tokens_of (c : call) : option value :=
  match c with
  | LlamaCall _ max_tokens _ _ => Some max_tokens
  | MlxGenerate _ max_tokens _ => Some max_tokens
  | _ => None
  end.

(** ** Stub collaborators

    Stand-ins for the JSON codec, the interpreter and the two libraries,
    used to run the scripts on concrete requests. *)

Module Stub.

Definition quoted (s : string) : pystr := [0x22%N] ++ lit s ++ [0x22%N].

(** Three request texts and the objects they denote. *)
Definition request_plain : pystr :=
  lit "{" ++ quoted "modelPath" ++ lit ": " ++ quoted "m.gguf" ++ lit ", " ++
  quoted "prompt" ++ lit ": " ++ quoted "list all users" ++ lit "}".

Definition request_null_cap : pystr :=
  lit "{" ++ quoted "modelPath" ++ lit ": " ++ quoted "m.gguf" ++ lit ", " ++
  quoted "prompt" ++ lit ": " ++ quoted "list all users" ++ lit ", " ++
  quoted "maxTokens" ++ lit ": null}".

Definition request_no_prompt : pystr :=
  lit "{" ++ quoted "modelPath" ++ lit ": " ++ quoted "m.gguf" ++ lit "}".

Definition object_plain : gmap pystr value :=
  {[ lit "modelPath" := VStr (lit "m.gguf");
     lit "prompt" := VStr (lit "list all users") ]}.

Definition object_null_cap : gmap pystr value :=
  <[ lit "maxTokens" := VNone ]> object_plain.

Definition object_no_prompt : gmap pystr value :=
  {[ lit "modelPath" := VStr (lit "m.gguf") ]}.

Definition parses : list (pystr * value) :=
  [ (request_plain, VDict object_plain);
    (request_null_cap, VDict object_null_cap);
    (request_no_prompt, VDict object_no_prompt) ].

Fixpoint assoc (table : list (pystr * value)) (text : pystr) : option value :=
  match table with
  | [] => None
  | (t, v) :: rest => if bool_decide (t = text) then Some v else assoc rest text
  end.

(** The stub codec knows the three requests and rejects any other
    text; it renders a response by tagging its message. *)
Definition json : Json := {|
  json_loads text :=
    match assoc parses text with
    | Some v => inr v
    | None => inl (LibraryError (lit "Expecting value"))
    end;
  json_dumps v :=
    match v with
    | VDict d =>
        match d !! lit "result", d !! lit "error" with
        | Some (VStr s), _ => lit "ok " ++ s
        | _, Some (VStr s) => lit "error " ++ s
        | _, _ => []
        end
    | _ => []
    end
|}.

Definition interpreter : Interpreter := {|
  str_of e :=
    match e with
    | KeyError (VStr k) => [0x27%N] ++ k ++ [0x27%N]
    | LibraryError m => m
    | _ => lit "error"
    end
|}.

(** A [llama_cpp] whose completion carries the given text. *)
Definition llama (text : pystr) : LlamaCpp := {|
  llm_object := unit;
  import_llama_cpp := inr tt;
  Llama _ _ _ _ := inr tt;
  llm_call _ _ _ _ _ :=
    inr (VDict {[ lit "choices" :=
                    VList [VDict {[ lit "text" := VStr text ]}] ]})
|}.

(** An [mlx_lm] whose [generate] returns the given text. *)
Definition mlx (response : pystr) : MlxLm := {|
  mlx_model := unit;
  mlx_tokenizer := unit;
  import_mlx_lm := inr tt;
  load _ _ := inr (tt, tt);
  generate _ _ _ _ _ := inr (VStr response)
|}.

End Stub.

(** ** Cutting at the earliest sentinel

    The loop cuts sentinel by sentinel.  The single cut it can be
    compared with is the one at the leftmost place where any sentinel
    starts. *)

Module Earliest.

(** One of [stops] starts at position [i] of [text]. *)
Definition sentinel_at (stops : list pystr) (text : pystr) (i : nat) : Prop :=
  ∃ stop, stop ∈ stops ∧ Spec.occurs_at stop text i.

(** [result] is [text] cut at the leftmost start of any of [stops], or
    [text] itself when none of them occurs. *)
Definition earliest_cut (stops : list pystr) (text result : pystr) : Prop :=
  (∃ m, sentinel_at stops text m ∧
        (∀ j, sentinel_at stops text j → (m ≤ j)%nat) ∧
        result = take m text) ∨
  ((∀ j, ¬ sentinel_at stops text j) ∧ result = text).

(** [m] is where the cut falls: no sentinel starts to its left, and one
    starts at [m] unless none occurs at all and [m] is the end. *)
Definition leftmost (stops : list pystr) (text : pystr) (m : nat) : Prop :=
  (m ≤ length text)%nat ∧
  (∀ j, sentinel_at stops text j → (m ≤ j)%nat) ∧
  (sentinel_at stops text m ∨
   (m = length text ∧ ∀ j, ¬ sentinel_at stops text j)).

(** One of [a], [b] is the start of the other. *)
Definition compatible (a b : pystr) : bool :=
  startswith a b || startswith b a.

(** An occurrence of [b] can begin strictly inside an occurrence of
    [a]: some proper tail of [a] and [b] agree as far as both go. *)
Definition straddles (a b : pystr) : bool :=
  existsb (λ o, compatible (drop o a) b) (seq 1 (length a - 1)).

(** No sentinel of the list can begin inside a sentinel that comes
    later in the list; [earlier] holds the ones already passed. *)
Fixpoint separated (earlier stops : list pystr) : bool :=
  match stops with
  | [] => true
  | stop :: rest =>
      forallb (λ before, negb (straddles stop before)) earlier &&
      separated (earlier ++ [stop]) rest
  end.

(** No two different sentinels of the list can begin inside one
    another, in either direction. *)
Definition apart (stops : list pystr) : bool :=
  forallb (λ a,
    forallb (λ b, bool_decide (a = b) || negb (straddles a b)) stops) stops.

End Earliest.

(** ** More stub collaborators: odd requests and failing libraries *)

Module Faulty.

(** Request texts beyond the three of [Stub]: an array, an empty
    object, and the plain request with one more field. *)
Definition request_array : pystr := lit "[1, 2]".

Definition request_empty : pystr := lit "{}".

Definition request_extra : pystr :=
  lit "{" ++ Stub.quoted "modelPath" ++ lit ": " ++ Stub.quoted "m.gguf" ++
  lit ", " ++ Stub.quoted "prompt" ++ lit ": " ++
  Stub.quoted "list all users" ++ lit ", " ++ Stub.quoted "stream" ++
  lit ": true}".

Definition object_extra : gmap pystr value :=
  <[ lit "stream" := VBool true ]> Stub.object_plain.

Definition parses : list (pystr * value) :=
  Stub.parses ++
  [ (request_array, VList [VInt 1; VInt 2]);
    (request_empty, VDict ∅);
    (request_extra, VDict object_extra) ].

Definition json : Json := {|
  json_loads text :=
    match Stub.assoc parses text with
    | Some v => inr v
    | None => inl (LibraryError (lit "Expecting value"))
    end;
  json_dumps := @json_dumps Stub.json
|}.

(** A [llama_cpp] that is not installed. *)
Definition llama_missing : LlamaCpp := {|
  llm_object := unit;
  import_llama_cpp := inl (LibraryError (lit "No module named llama_cpp"));
  Llama _ _ _ _ := inr tt;
  llm_call _ _ _ _ _ := inr VNone
|}.

(** A [llama_cpp] that cannot load the model file. *)
Definition llama_unloadable : LlamaCpp := {|
  llm_object := unit;
  import_llama_cpp := inr tt;
  Llama _ _ _ _ := inl (LibraryError (lit "Failed to load model from file"));
  llm_call _ _ _ _ _ := inr VNone
|}.



End Faulty.

(** * Properties *)

(** ** [startswith], [find] and slices *)

Section find_facts.
Import Spec.

Lemma startswith_true s sub :
  startswith s sub = true ↔ ∃ after, s = sub ++ after.
Proof.
  revert s; induction sub as [|a sub IH]; intros s; simpl.
  - split; [by exists s | done].
  - destruct s as [|b s].
    + split; [discriminate | intros [? ?]; discriminate].
    + rewrite andb_true_iff, N.eqb_eq, IH. split.
      * intros [-> [after ->]]. eauto.
      * intros [after Heq]. injection Heq as -> ->. eauto.
Qed.

Lemma occurs_at_0 part text :
  occurs_at part text 0 ↔ startswith text part = true.
Proof.
  rewrite startswith_true. split.
  - intros (before & after & -> & Hlen).
    apply length_zero_iff_nil in Hlen as ->. eauto.
  - intros [after ->]. exists [], after. done.
Qed.

Lemma occurs_at_S part c text i :
  occurs_at part (c :: text) (S i) ↔ occurs_at part text i.
Proof.
  split.
  - intros (before & after & Heq & Hlen).
    destruct before as [|b before]; [discriminate|].
    simpl in *. injection Heq as _ ->. exists before, after. auto with lia.
  - intros (before & after & -> & Hlen).
    exists (c :: before), after. simpl. auto.
Qed.

Lemma occurs_at_nil part i : occurs_at part [] i → part = [] ∧ i = 0%nat.
Proof.
  intros (before & after & Heq & Hlen). symmetry in Heq.
  apply app_eq_nil in Heq as [-> Heq]. apply app_eq_nil in Heq as [-> _].
  auto.
Qed.

Lemma substring_occurs part text :
  substring_of part text ↔ ∃ i, occurs_at part text i.
Proof.
  split.
  - intros (before & after & ->). exists (length before), before, after. done.
  - intros (i & before & after & -> & _). exists before, after. done.
Qed.

(** [find_from] either reports [-1] and there is no occurrence, or
    reports the offset of the first one. *)
Lemma find_from_spec s sub i :
  (¬ substring_of sub s ∧ find_from s sub i = -1) ∨
  (∃ k, first_occurrence sub s k ∧ find_from s sub i = i + Z.of_nat k).
Proof.
  revert i; induction s as [|c s IH]; intros i; simpl.
  - destruct (startswith [] sub) eqn:Hs.
    + right. exists 0%nat. split; [|lia]. split; [by apply occurs_at_0 | lia].
    + left. split; [|done]. rewrite substring_occurs. intros [k Hk].
      apply occurs_at_nil in Hk as [-> _]. discriminate.
  - destruct (startswith (c :: s) sub) eqn:Hs.
    + right. exists 0%nat. split; [|lia]. split; [by apply occurs_at_0 | lia].
    + destruct (IH (i + 1)) as [[Hno Hf] | (k & [Hk Hmin] & Hf)].
      * left. split; [|done]. rewrite substring_occurs. intros [[|k] Hk].
        -- apply occurs_at_0 in Hk. congruence.
        -- apply occurs_at_S in Hk. apply Hno, substring_occurs. eauto.
      * right. exists (S k). split; [|lia]. split; [by apply occurs_at_S|].
        intros [|j] Hj.
        -- apply occurs_at_0 in Hj. congruence.
        -- apply occurs_at_S, Hmin in Hj. lia.
Qed.

Lemma find_spec s sub :
  (¬ substring_of sub s ∧ find s sub = -1) ∨
  (∃ k, first_occurrence sub s k ∧ find s sub = Z.of_nat k).
Proof.
  unfold find. destruct (find_from_spec s sub 0) as [?|(k & ? & ->)]; eauto.
Qed.

Lemma find_absent s sub : find s sub = -1 → ¬ substring_of sub s.
Proof.
  destruct (find_spec s sub) as [[Hno _] | (k & _ & ->)]; [done | lia].
Qed.

Lemma occurs_at_length part text i :
  occurs_at part text i → (i ≤ length text)%nat.
Proof.
  intros (before & after & -> & <-). rewrite length_app. lia.
Qed.

Lemma slice_to_take s k :
  (k ≤ length s)%nat → slice_to s (Z.of_nat k) = take k s.
Proof.
  intros Hk. unfold slice_to.
  destruct (Z.of_nat k <? 0) eqn:Hneg; [lia|].
  f_equal. lia.
Qed.

Lemma first_occurrence_unique part text i j :
  first_occurrence part text i → first_occurrence part text j → i = j.
Proof.
  intros [Hi Hmin_i] [Hj Hmin_j].
  apply Hmin_i in Hj. apply Hmin_j in Hi. lia.
Qed.

(** One loop iteration does what "truncate just before the first
    occurrence, if found" says, and nothing else does. *)
Lemma truncated_stop_at sentinel text text' :
  truncated sentinel text text' ↔ text' = stop_at text sentinel.
Proof.
  unfold truncated, stop_at.
  destruct (find_spec text sentinel) as [[Hno ->] | (k & Hk & ->)].
  - simpl. split; [|by right].
    intros [(i & [Hi _] & _) | [_ ?]]; [|done].
    destruct Hno. apply substring_occurs. eauto.
  - assert ((Z.of_nat k =? -1) = false) as -> by (apply Z.eqb_neq; lia).
    simpl.
    rewrite slice_to_take by (destruct Hk; eauto using occurs_at_length).
    split.
    + intros [(i & Hi & ->) | [Hno _]].
      * by rewrite (first_occurrence_unique _ _ _ _ Hi Hk).
      * destruct Hno. apply substring_occurs. destruct Hk. eauto.
    + intros ->. left. eauto.
Qed.

Lemma scanned_fold sentinels text text' :
  scanned sentinels text text' ↔ text' = fold_left stop_at sentinels text.
Proof.
  revert text; induction sentinels as [|s rest IH]; intros text; simpl.
  - done.
  - split.
    + intros (current & Hcut & Hrest).
      apply truncated_stop_at in Hcut as ->. by apply IH.
    + intros ->. exists (stop_at text s). split.
      * by apply truncated_stop_at.
      * by apply IH.
Qed.

End find_facts.

(** ** [strip] *)

Section strip_facts.
Import Spec.

#[local] Abbreviation spaces := (Forall (λ c, isspace c = true)).

Lemma lstrip_spaces l s : spaces l → lstrip (l ++ s) = lstrip s.
Proof.
  induction 1 as [|c l Hc _ IH]; simpl; [done|]. by rewrite Hc.
Qed.

Lemma lstrip_all_spaces l : spaces l → lstrip l = [].
Proof.
  intros Hl. rewrite <- (app_nil_r l). by rewrite lstrip_spaces.
Qed.

Lemma lstrip_fixed s :
  (∀ c, head s = Some c → isspace c = false) → lstrip s = s.
Proof.
  destruct s as [|c s]; simpl; [done|].
  intros Hc. by rewrite (Hc c).
Qed.

(** [lstrip] splits off a run of whitespace and stops at the first
    code point that is not. *)
Lemma lstrip_split s :
  ∃ l, s = l ++ lstrip s ∧ spaces l ∧
       ∀ c, head (lstrip s) = Some c → isspace c = false.
Proof.
  induction s as [|c s (l & Heq & Hl & Hhead)]; simpl.
  - exists []. done.
  - destruct (isspace c) eqn:Hc.
    + exists (c :: l). rewrite Heq at 1. auto.
    + exists []. split; [done|]. split; [done|].
      simpl. intros ? [= <-]. done.
Qed.

Lemma strip_stripped text : stripped text (strip text).
Proof.
  unfold strip, rstrip.
  destruct (lstrip_split text) as (l & Hl_eq & Hl & Hhead).
  destruct (lstrip_split (reverse (lstrip text))) as (r & Hr_eq & Hr & Hlast).
  set (core := lstrip (reverse (lstrip text))) in *.
  assert (lstrip text = reverse core ++ reverse r) as Hmid.
  { rewrite <- reverse_app, <- Hr_eq. by rewrite reverse_involutive. }
  exists l, (reverse r). repeat split.
  - by rewrite <- Hmid.
  - done.
  - by apply Forall_reverse.
  - intros c Hc. apply Hhead. rewrite Hmid, head_app. by rewrite Hc.
  - intros c Hc. apply Hlast. by rewrite <- last_reverse.
Qed.

Lemma stripped_strip text text' : stripped text text' → text' = strip text.
Proof.
  intros (l & r & -> & Hl & Hr & Hhead & Hlast).
  unfold strip, rstrip. rewrite lstrip_spaces by done.
  destruct text' as [|c rest] eqn:Htext'.
  - simpl. by rewrite (lstrip_all_spaces r).
  - rewrite <- Htext' in *.
    rewrite (lstrip_fixed (text' ++ r)).
    2:{ intros d. rewrite Htext'. simpl. intros [= <-]. apply Hhead.
        by rewrite Htext'. }
    rewrite reverse_app, lstrip_spaces by by apply Forall_reverse.
    rewrite lstrip_fixed; [by rewrite reverse_involutive|].
    intros d. rewrite head_reverse. apply Hlast.
Qed.

Lemma stripped_iff text text' : stripped text text' ↔ text' = strip text.
Proof.
  split; [apply stripped_strip | intros ->; apply strip_stripped].
Qed.

Lemma strip_substring text : substring_of (strip text) text.
Proof.
  destruct (strip_stripped text) as (l & r & Heq & _). by exists l, r.
Qed.

End strip_facts.

(** ** Substrings survive no cut *)

Section substring_facts.
Import Spec.

Lemma substring_refl text : substring_of text text.
Proof. exists [], []. by rewrite app_nil_r. Qed.

Lemma substring_trans a b c :
  substring_of a b → substring_of b c → substring_of a c.
Proof.
  intros (l1 & r1 & ->) (l2 & r2 & ->).
  exists (l2 ++ l1), (r1 ++ r2). by rewrite !app_assoc.
Qed.

Lemma take_substring k (text : pystr) : substring_of (take k text) text.
Proof. exists [], (drop k text). simpl. by rewrite take_drop. Qed.

(** Nothing that starts before the first occurrence is an occurrence. *)
Lemma take_first_occurrence sentinel text k :
  sentinel ≠ [] → first_occurrence sentinel text k →
  ¬ substring_of sentinel (take k text).
Proof.
  intros Hne [Hk Hmin] (before & after & Heq).
  assert (occurs_at sentinel text (length before)) as Hocc.
  { exists before, (after ++ drop k text). split; [|done].
    rewrite <- (take_drop k text) at 1. rewrite Heq.
    by rewrite <- !app_assoc. }
  apply Hmin in Hocc.
  apply (f_equal length) in Heq.
  rewrite length_take, !length_app in Heq.
  destruct sentinel; [done|]. simpl in Heq. lia.
Qed.

Lemma stop_at_substring text sentinel : substring_of (stop_at text sentinel) text.
Proof.
  destruct (proj2 (truncated_stop_at sentinel text _) eq_refl)
    as [(k & _ & ->) | [_ ->]].
  - apply take_substring.
  - apply substring_refl.
Qed.

Lemma stop_at_clears text sentinel :
  sentinel ≠ [] → ¬ substring_of sentinel (stop_at text sentinel).
Proof.
  intros Hne.
  destruct (proj2 (truncated_stop_at sentinel text _) eq_refl)
    as [(k & Hk & ->) | [Hno ->]].
  - by apply take_first_occurrence.
  - done.
Qed.

Lemma fold_stop_at_substring stops text :
  substring_of (fold_left stop_at stops text) text.
Proof.
  revert text; induction stops as [|s rest IH]; intros text; simpl.
  - apply substring_refl.
  - eapply substring_trans; [apply IH | apply stop_at_substring].
Qed.

Lemma fold_stop_at_clears stops text :
  Forall (λ s, s ≠ []) stops →
  Forall (λ s, ¬ substring_of s (fold_left stop_at stops text)) stops.
Proof.
  intros Hne. revert text.
  induction Hne as [|s rest Hs _ IH]; intros text; simpl; constructor.
  - intros Hsub. apply (stop_at_clears text s Hs).
    eapply substring_trans; [exact Hsub | apply fold_stop_at_substring].
  - apply IH.
Qed.


End substring_facts.

(** ** The Apple-Silicon post-processing *)

Section trimming.
Import Spec.

(** The description, read on the text it is given, is a function: it
    yields the loop followed by one strip. *)
Lemma postprocessed_iff text result :
  postprocessed text result ↔ result = strip (stop_loop text).
Proof.
  unfold postprocessed, stop_loop. split.
  - intros (current & Hscan & Hstrip).
    apply scanned_fold in Hscan as ->. by apply stripped_strip.
  - intros ->. eexists. split; [by apply scanned_fold | apply strip_stripped].
Qed.

(** Lines 40 to 48 compute what the description yields from the
    stripped raw text. *)
Lemma clean_response_postprocessed raw :
  postprocessed (strip raw) (clean_response raw).
Proof.
  apply postprocessed_iff. reflexivity.
Qed.


(** No stop sequence is left anywhere in the result, which is cut out
    of the raw text in one piece. *)
Lemma clean_response_clear raw :
  Forall (λ sentinel, ¬ substring_of sentinel (clean_response raw))
    stop_sequences ∧
  substring_of (clean_response raw) raw.
Proof.
  unfold clean_response, stop_loop. split.
  - assert (Forall (λ s : pystr, s ≠ []) stop_sequences) as Hne
      by (repeat constructor; discriminate).
    apply (fold_stop_at_clears _ (strip raw)) in Hne.
    eapply Forall_impl; [exact Hne|]. simpl. intros s Hs Hsub. apply Hs.
    eapply substring_trans; [exact Hsub | apply strip_substring].
  - eapply substring_trans; [apply strip_substring|].
    eapply substring_trans; [apply fold_stop_at_substring|].
    apply strip_substring.
Qed.



End trimming.

(** ** Stepping through a script

    One rule per statement form, so that a proof follows the script
    line by line: the continuation of a statement is entered with what
    the statement yields, or the exception it raises ends the body. *)

Section stepping.

#[local] Abbreviation fails Q p := (∀ e, Q p (inl (Exception e))).

Lemma after_bind {A B} (m : M A) (k : A → M B) p Q :
  after m p (λ p' r,
    match r with
    | inr x => after (k x) p' Q
    | inl e => Q p' (inl e)
    end) →
  after (m ≫= k) p Q.
Proof.
  unfold after, mbind, M_bind. destruct (m p) as [p' [e|x]]; done.
Qed.

Lemma after_bind_ok {A B} (m : M A) (k : A → M B) p p' x Q :
  m p = (p', inr x) → after (k x) p' Q → after (m ≫= k) p Q.
Proof. unfold after, mbind, M_bind. by intros ->. Qed.

Lemma after_lift {A} (o : exception + A) p (Q : process → raised + A → Prop) :
  (∀ x, o = inr x → Q p (inr x)) →
  (∀ e, o = inl e → Q p (inl (Exception e))) →
  after (lift o) p Q.
Proof. unfold after. destruct o; simpl; auto. Qed.

Lemma after_extern {A} c (o : exception + A) p (Q : process → raised + A → Prop) :
  let p' := Process (stdout p) (calls p ++ [c]) in
  (∀ x, o = inr x → Q p' (inr x)) →
  (∀ e, o = inl e → Q p' (inl (Exception e))) →
  after (extern c o) p Q.
Proof. unfold after. destruct o; simpl; auto. Qed.

Lemma after_getitem v key p (Q : process → raised + value → Prop) :
  (∀ d x, v = VDict d → d !! key = Some x → Q p (inr x)) →
  fails Q p → after (getitem v key) p Q.
Proof.
  unfold after, getitem. intros Hok Hfail.
  destruct v; simpl; auto. destruct (d !! key) eqn:Hd; simpl; eauto.
Qed.

Lemma after_get v key fallback p (Q : process → raised + value → Prop) :
  (∀ d, v = VDict d → Q p (inr (default fallback (d !! key)))) →
  fails Q p → after (get v key fallback) p Q.
Proof. unfold after, get. destruct v; simpl; auto. Qed.

Lemma after_getitem_int v i p (Q : process → raised + value → Prop) :
  (∀ x, Q p (inr x)) → fails Q p → after (getitem_int v i) p Q.
Proof.
  unfold after, getitem_int. intros Hok Hfail.
  destruct v; simpl; auto.
  - destruct (index s i); simpl; auto.
  - destruct (index l i); simpl; auto.
Qed.

Lemma after_strip_method v p (Q : process → raised + pystr → Prop) :
  (∀ s, v = VStr s → Q p (inr (strip s))) →
  fails Q p → after (strip_method v) p Q.
Proof. unfold after, strip_method. destruct v; simpl; auto. Qed.

Lemma after_print line p (Q : process → raised + unit → Prop) :
  Q (Process (stdout p ++ [line]) (calls p)) (inr tt) → after (print line) p Q.
Proof. done. Qed.

End stepping.

(** ** What a body leaves behind *)

Section bodies.
Context `{Json, Interpreter, LlamaCpp, MlxLm}.

(** Closes the goal left when a statement raises, or when the body is
    through: the calls made are the start of the plan. *)
Ltac stopped :=
  simpl; split;
  [ first [ by left
          | right; do 3 eexists; split;
            [ repeat split; eassumption | by eexists ] ]
  | first [ done | by eexists ] ].

Ltac step rule := apply after_bind, rule; [ | by (intros; stopped) ].

Lemma llama_body_shape stdin :
  after (llama_inference.body stdin) start (λ p r,
    follows_plan stdin llama_plan (calls p) ∧ body_outcome p r).
Proof.
  unfold llama_inference.body, import_Llama, new_Llama, call_llm, llama_plan.
  step @after_lift. intros input_data Hloads.
  step after_getitem. intros d model_path -> Hpath.
  step after_getitem. intros ? prompt [= <-] Hprompt.
  step after_get. intros ? [= <-].
  step @after_extern. intros _ _.
  step @after_extern. intros llm _.
  step @after_extern. intros output _.
  step after_getitem. intros ? choices _ _.
  step after_getitem_int. intros choice.
  step after_getitem. intros ? raw _ _.
  step after_strip_method. intros text _.
  apply after_print. stopped.
Qed.

Lemma mlx_body_shape stdin :
  after (mlx_inference.body stdin) start (λ p r,
    follows_plan stdin mlx_plan (calls p) ∧ body_outcome p r).
Proof.
  unfold mlx_inference.body, import_load_generate, call_load, call_generate,
    mlx_plan.
  step @after_lift. intros input_data Hloads.
  step after_getitem. intros d adapter_path -> Hpath.
  step after_getitem. intros ? prompt [= <-] Hprompt.
  step after_get. intros ? [= <-].
  step @after_extern. intros _ _.
  step @after_extern. intros [model tokenizer] _.
  step @after_extern. intros response _.
  step after_strip_method. intros text _.
  apply after_print. stopped.
Qed.

(** The [try]/[except] around a body: the handler adds one failure
    object and turns the exception into exit status 1; it makes no
    library call. *)
Lemma run_llama_main stdin :
  run (llama_inference.main stdin) =
  let '(p, r) := llama_inference.body stdin start in
  match r with
  | inl (Exception e) =>
      RunResult (stdout p ++ [json_dumps (failure_response (str_of e))])
        (calls p) 1
  | _ => RunResult (stdout p) (calls p) (exit_status r)
  end.
Proof.
  unfold run, llama_inference.main, try_except.
  destruct (llama_inference.body stdin start) as [p [[e|code]|[]]]; done.
Qed.

Lemma run_mlx_main stdin :
  run (mlx_inference.main stdin) =
  let '(p, r) := mlx_inference.body stdin start in
  match r with
  | inl (Exception e) =>
      RunResult (stdout p ++ [json_dumps (failure_response (str_of e))])
        (calls p) 1
  | _ => RunResult (stdout p) (calls p) (exit_status r)
  end.
Proof.
  unfold run, mlx_inference.main, try_except.
  destruct (mlx_inference.body stdin start) as [p [[e|code]|[]]]; done.
Qed.

Lemma llama_main_calls stdin :
  follows_plan stdin llama_plan (called (run (llama_inference.main stdin))).
Proof.
  rewrite run_llama_main. pose proof (llama_body_shape stdin) as [Hplan _].
  destruct (llama_inference.body stdin start) as [p [[e|code]|[]]]; done.
Qed.

Lemma mlx_main_calls stdin :
  follows_plan stdin mlx_plan (called (run (mlx_inference.main stdin))).
Proof.
  rewrite run_mlx_main. pose proof (mlx_body_shape stdin) as [Hplan _].
  destruct (mlx_inference.body stdin start) as [p [[e|code]|[]]]; done.
Qed.

(** A call that was made is a call of the plan, for a request that
    parsed and held both required fields. *)
Lemma planned_call stdin plan made c :
  follows_plan stdin plan made → c ∈ made →
  ∃ d model_path prompt,
    request_of stdin d model_path prompt ∧ c ∈ plan d model_path prompt.
Proof.
  intros [-> | (d & model_path & prompt & Hreq & [rest Hplan])] Hc.
  - by apply elem_of_nil in Hc.
  - exists d, model_path, prompt. split; [done|].
    rewrite Hplan. apply elem_of_app. by left.
Qed.

(** The runs that get through. *)
Lemma llama_success_run stdin output text :
  llama_completes stdin output → completion_text output text →
  ∃ d model_path prompt,
    request_of stdin d model_path prompt ∧
    run (llama_inference.main stdin) =
      RunResult [json_dumps (success_response (strip text))]
        (llama_plan d model_path prompt) 0.
Proof.
  intros (d & model_path & prompt & llm & Hreq & Himport & Hnew & Hcall)
         (fields & choice & others & -> & Hchoices & Htext).
  exists d, model_path, prompt. split; [done|].
  destruct Hreq as (Hloads & Hpath & Hprompt).
  rewrite run_llama_main.
  unfold llama_inference.body, import_Llama, new_Llama, call_llm, extern, lift,
    getitem, get, mbind, M_bind.
  rewrite Hloads. simpl. rewrite Hpath. simpl. rewrite Hprompt. simpl.
  rewrite Himport. simpl. rewrite Hnew. simpl. rewrite Hcall. simpl.
  rewrite Hchoices. simpl. rewrite Htext. done.
Qed.

(** Once the completion is back, the three calls have been made and
    nothing below line 38 makes another. *)
Lemma llama_completes_calls stdin output :
  llama_completes stdin output →
  ∃ d model_path prompt,
    request_of stdin d model_path prompt ∧
    called (run (llama_inference.main stdin)) = llama_plan d model_path prompt.
Proof.
  intros (d & model_path & prompt & llm & Hreq & Himport & Hnew & Hcall).
  exists d, model_path, prompt. split; [done|].
  destruct Hreq as (Hloads & Hpath & Hprompt).
  assert (after (llama_inference.body stdin) start
            (λ p _, calls p = llama_plan d model_path prompt)) as Hcalls.
  { unfold llama_inference.body.
    eapply after_bind_ok; [unfold lift; by rewrite Hloads|].
    eapply after_bind_ok; [unfold getitem; by rewrite Hpath|].
    eapply after_bind_ok; [unfold getitem; by rewrite Hprompt|].
    eapply after_bind_ok; [done|].
    eapply after_bind_ok; [unfold import_Llama, extern; by rewrite Himport|].
    eapply after_bind_ok; [unfold new_Llama, extern; by rewrite Hnew|].
    eapply after_bind_ok; [unfold call_llm, extern; by rewrite Hcall|].
    apply after_bind, after_getitem; [|done]. intros ? choices _ _.
    apply after_bind, after_getitem_int; [|done]. intros choice.
    apply after_bind, after_getitem; [|done]. intros ? raw _ _.
    apply after_bind, after_strip_method; [|done]. intros ? _.
    by apply after_print. }
  rewrite run_llama_main. unfold after in Hcalls.
  destruct (llama_inference.body stdin start) as [p [[e|code]|[]]]; done.
Qed.

Lemma mlx_success_run stdin raw :
  mlx_generates stdin (VStr raw) →
  ∃ d adapter_path prompt,
    request_of stdin d adapter_path prompt ∧
    run (mlx_inference.main stdin) =
      RunResult [json_dumps (success_response (clean_response raw))]
        (mlx_plan d adapter_path prompt) 0.
Proof.
  intros (d & adapter_path & prompt & model & tokenizer & Hreq & Himport &
          Hload & Hgen).
  exists d, adapter_path, prompt. split; [done|].
  destruct Hreq as (Hloads & Hpath & Hprompt).
  rewrite run_mlx_main.
  unfold mlx_inference.body, import_load_generate, call_load, call_generate,
    extern, lift, getitem, get, mbind, M_bind.
  rewrite Hloads. simpl. rewrite Hpath. simpl. rewrite Hprompt. simpl.
  rewrite Himport. simpl. rewrite Hload. simpl. rewrite Hgen. done.
Qed.

(** Once the model is loaded, generation is invoked: the three calls
    are made whether or not generation then succeeds, and what a
    successful generation returns is what the run prints. *)
Lemma llama_generation_invoked stdin d model_path prompt llm :
  request_of stdin d model_path prompt →
  import_llama_cpp = inr tt →
  Llama model_path 2048 (-1) false = inr llm →
  called (run (llama_inference.main stdin)) = llama_plan d model_path prompt ∧
  ∀ output text,
    llm_call llm prompt (default (VInt 100) (d !! lit "maxTokens"))
      llama_inference.stop false = inr output →
    completion_text output text →
    printed (run (llama_inference.main stdin)) =
      [json_dumps (success_response (strip text))].
Proof.
  intros Hreq Himport Hnew. split.
  - destruct (llm_call llm prompt (default (VInt 100) (d !! lit "maxTokens"))
                llama_inference.stop false) as [e|output] eqn:Hcall.
    + destruct Hreq as (Hloads & Hpath & Hprompt).
      rewrite run_llama_main.
      unfold llama_inference.body, import_Llama, new_Llama, call_llm, extern,
        lift, getitem, get, mbind, M_bind.
      rewrite Hloads. simpl. rewrite Hpath. simpl. rewrite Hprompt. simpl.
      rewrite Himport. simpl. rewrite Hnew. simpl. by rewrite Hcall.
    + destruct (llama_completes_calls stdin output)
        as (d' & model_path' & prompt' & Hreq' & ->).
      { exists d, model_path, prompt, llm. auto. }
      destruct Hreq as (Hloads & Hpath & Hprompt).
      destruct Hreq' as (Hloads' & Hpath' & Hprompt').
      unfold llama_plan. congruence.
  - intros output text Hcall Htext.
    destruct (llama_success_run stdin output text) as (? & ? & ? & _ & ->);
      [|done..].
    exists d, model_path, prompt, llm. auto.
Qed.

Lemma mlx_generation_invoked stdin d adapter_path prompt model tokenizer :
  request_of stdin d adapter_path prompt →
  import_mlx_lm = inr tt →
  load mlx_inference.BASE_MODEL adapter_path = inr (model, tokenizer) →
  called (run (mlx_inference.main stdin)) = mlx_plan d adapter_path prompt ∧
  ∀ raw,
    generate model tokenizer prompt
      (default (VInt 100) (d !! lit "maxTokens")) false = inr (VStr raw) →
    printed (run (mlx_inference.main stdin)) =
      [json_dumps (success_response (clean_response raw))].
Proof.
  intros Hreq Himport Hload. split.
  - destruct Hreq as (Hloads & Hpath & Hprompt).
    rewrite run_mlx_main.
    unfold mlx_inference.body, import_load_generate, call_load, call_generate,
      extern, lift, getitem, get, strip_method, mbind, M_bind.
    rewrite Hloads. simpl. rewrite Hpath. simpl. rewrite Hprompt. simpl.
    rewrite Himport. simpl. rewrite Hload. simpl.
    by destruct (generate model tokenizer prompt
                   (default (VInt 100) (d !! lit "maxTokens")) false)
      as [e|[]].
  - intros raw Hgen.
    destruct (mlx_success_run stdin raw) as (? & ? & ? & _ & ->); [|done].
    exists d, adapter_path, prompt, model, tokenizer. auto.
Qed.

End bodies.

(** ** The adapters *)

Section adapters.
Context `{Json, Interpreter, LlamaCpp, MlxLm}.
Import Spec.

(** C2: every invocation of either adapter prints exactly one JSON
    object: the success object, with exit status 0, when the body of the
    [try] returns; the failure object carrying the exception's message,
    with exit status 1, when the body raises an exception, whatever
    raised it. *)
Theorem adapters_respond_once stdin :
  responds_once (llama_inference.body stdin) (llama_inference.main stdin) ∧
  responds_once (mlx_inference.body stdin) (mlx_inference.main stdin).
Proof.
  unfold responds_once. rewrite run_llama_main, run_mlx_main. split.
  - pose proof (llama_body_shape stdin) as [_ Hout]. revert Hout.
    destruct (llama_inference.body stdin start) as [p [[e|code]|[]]]; simpl.
    + by intros ->.
    + done.
    + intros [text ->]. eauto.
  - pose proof (mlx_body_shape stdin) as [_ Hout]. revert Hout.
    destruct (mlx_inference.body stdin start) as [p [[e|code]|[]]]; simpl.
    + by intros ->.
    + done.
    + intros [text ->]. eauto.
Qed.

(** The causes of failure the specification lists do raise in the body:
    input that does not parse, and a request without a required field. *)
Lemma malformed_input_raises stdin e :
  json_loads stdin = inl e →
  (llama_inference.body stdin start).2 = inl (Exception e) ∧
  (mlx_inference.body stdin start).2 = inl (Exception e).
Proof.
  intros Hloads.
  unfold llama_inference.body, mlx_inference.body, lift, mbind, M_bind.
  by rewrite Hloads.
Qed.

Lemma missing_field_raises stdin d :
  json_loads stdin = inr (VDict d) →
  d !! lit "modelPath" = None ∨ d !! lit "prompt" = None →
  ∃ key,
    (llama_inference.body stdin start).2 = inl (Exception (KeyError (VStr key))) ∧
    (mlx_inference.body stdin start).2 = inl (Exception (KeyError (VStr key))).
Proof.
  intros Hloads Hmiss.
  unfold llama_inference.body, mlx_inference.body, lift, getitem, mbind, M_bind.
  rewrite Hloads. simpl.
  destruct (d !! lit "modelPath") as [path|] eqn:Hpath; simpl; [|by eexists].
  destruct Hmiss as [|Hprompt]; [done|]. rewrite Hprompt. by eexists.
Qed.

(** C4: when the request parses to an object without the key
    [maxTokens], both adapters invoke generation with the cap 100.
    Every generation call either adapter makes carries 100; and once
    the request holds both required fields and the import and the load
    go through, each adapter does make its generation call, with cap
    100, and prints what that call returns. *)
Theorem omitted_max_tokens_is_100 stdin d :
  json_loads stdin = inr (VDict d) →
  d !! lit "maxTokens" = None →
  (∀ c cap,
     c ∈ called (run (llama_inference.main stdin)) ∨
     c ∈ called (run (mlx_inference.main stdin)) →
     max_tokens_of c = Some cap →
     cap = VInt 100) ∧
  (∀ model_path prompt llm,
     d !! lit "modelPath" = Some model_path →
     d !! lit "prompt" = Some prompt →
     import_llama_cpp = inr tt →
     Llama model_path 2048 (-1) false = inr llm →
     called (run (llama_inference.main stdin)) =
       [ ImportLlamaCpp;
         LlamaNew model_path 2048 (-1) false;
         LlamaCall prompt (VInt 100)
           [ lit "<|user|>"; lit "<|end|>"; lit "<|endoftext|>"; [LF; LF] ] false ] ∧
     ∀ output text,
       llm_call llm prompt (VInt 100)
         [ lit "<|user|>"; lit "<|end|>"; lit "<|endoftext|>"; [LF; LF] ] false
         = inr output →
       completion_text output text →
       printed (run (llama_inference.main stdin)) =
         [json_dumps (success_response (strip text))]) ∧
  (∀ adapter_path prompt model tokenizer,
     d !! lit "modelPath" = Some adapter_path →
     d !! lit "prompt" = Some prompt →
     import_mlx_lm = inr tt →
     load (lit "mlx-community/Qwen2.5-7B-Instruct-4bit") adapter_path =
       inr (model, tokenizer) →
     called (run (mlx_inference.main stdin)) =
       [ ImportMlxLm;
         MlxLoad (lit "mlx-community/Qwen2.5-7B-Instruct-4bit") adapter_path;
         MlxGenerate prompt (VInt 100) false ] ∧
     ∀ raw,
       generate model tokenizer prompt (VInt 100) false = inr (VStr raw) →
       printed (run (mlx_inference.main stdin)) =
         [json_dumps (success_response (clean_response raw))]).
Proof.
  intros Hloads Hkey. split; [|split].
  - intros c cap Hc Hcap.
    assert (∃ d' model_path prompt,
      request_of stdin d' model_path prompt ∧
      (c ∈ llama_plan d' model_path prompt ∨ c ∈ mlx_plan d' model_path prompt))
      as (d' & model_path & prompt & (Hloads' & _) & Hin).
    { destruct Hc as [Hc|Hc].
      - destruct (planned_call _ _ _ _ (llama_main_calls stdin) Hc)
          as (? & ? & ? & ? & ?); eauto 10.
      - destruct (planned_call _ _ _ _ (mlx_main_calls stdin) Hc)
          as (? & ? & ? & ? & ?); eauto 10. }
    assert (d' = d) as -> by congruence.
    unfold llama_plan, mlx_plan in Hin. rewrite Hkey in Hin. simpl in Hin.
    destruct Hin as [Hin|Hin];
      repeat (apply elem_of_cons in Hin as [->|Hin]); simplify_eq/=;
      try done; by apply elem_of_nil in Hin.
  - intros model_path prompt llm Hpath Hprompt Himport Hnew.
    pose proof (llama_generation_invoked stdin d model_path prompt llm
                  (conj Hloads (conj Hpath Hprompt)) Himport Hnew) as Hrun.
    unfold llama_plan in Hrun. by rewrite Hkey in Hrun.
  - intros adapter_path prompt model tokenizer Hpath Hprompt Himport Hload.
    pose proof (mlx_generation_invoked stdin d adapter_path prompt model
                  tokenizer (conj Hloads (conj Hpath Hprompt)) Himport Hload)
      as Hrun.
    unfold mlx_plan in Hrun. by rewrite Hkey in Hrun.
Qed.

(** C5: in a run of the CPU/CUDA adapter, every load is
    [Llama(model_path=<the request's modelPath>, n_ctx=2048,
    n_gpu_layers=-1, verbose=False)] and every generation is the call
    with the request's prompt, the cap ([maxTokens], or 100 without it),
    the four stop tokens [<|user|>], [<|end|>], [<|endoftext|>], blank
    line, and [echo=False]; and a run in which the library calls go
    through makes exactly the import, that load and that generation. *)
Theorem llama_call_arguments stdin :
  (∀ c, c ∈ called (run (llama_inference.main stdin)) →
     match c with
     | ImportLlamaCpp => True
     | LlamaNew model_path n_ctx n_gpu_layers verbose =>
         n_ctx = 2048 ∧ n_gpu_layers = -1 ∧ verbose = false ∧
         ∃ d, json_loads stdin = inr (VDict d) ∧
              d !! lit "modelPath" = Some model_path
     | LlamaCall prompt max_tokens stop echo =>
         stop = [ lit "<|user|>"; lit "<|end|>"; lit "<|endoftext|>";
                  [LF; LF] ] ∧
         echo = false ∧
         ∃ d, json_loads stdin = inr (VDict d) ∧
              d !! lit "prompt" = Some prompt ∧
              max_tokens = default (VInt 100) (d !! lit "maxTokens")
     | _ => False
     end) ∧
  (∀ output,
     llama_completes stdin output →
     ∃ d model_path prompt,
       request_of stdin d model_path prompt ∧
       called (run (llama_inference.main stdin)) =
         [ ImportLlamaCpp;
           LlamaNew model_path 2048 (-1) false;
           LlamaCall prompt (default (VInt 100) (d !! lit "maxTokens"))
             [ lit "<|user|>"; lit "<|end|>"; lit "<|endoftext|>"; [LF; LF] ]
             false ]).
Proof.
  split.
  - intros c Hc.
    destruct (planned_call _ _ _ _ (llama_main_calls stdin) Hc)
      as (d & model_path & prompt & (Hloads & Hpath & Hprompt) & Hin).
    unfold llama_plan in Hin.
    repeat (apply elem_of_cons in Hin as [->|Hin]);
      [done | eauto 10 | eauto 10 | by apply elem_of_nil in Hin].
  - intros output Hrun.
    destruct (llama_completes_calls _ _ Hrun)
      as (d & model_path & prompt & Hreq & ->).
    by exists d, model_path, prompt.
Qed.

(** C6: when the CPU/CUDA run gets a completion whose text is [text],
    it prints the success object whose [result] is [text] stripped of
    leading and trailing whitespace, and exits with 0; if none of the
    four stop tokens occurs in [text] (the library honoured the stop
    list), none of them is a suffix of the result. *)
Theorem llama_result_is_stripped_text stdin output text :
  llama_completes stdin output → completion_text output text →
  printed (run (llama_inference.main stdin)) =
    [json_dumps (success_response (strip text))] ∧
  status (run (llama_inference.main stdin)) = 0 ∧
  stripped text (strip text) ∧
  (Forall (λ stop, ¬ substring_of stop text)
     [ lit "<|user|>"; lit "<|end|>"; lit "<|endoftext|>"; [LF; LF] ] →
   Forall (λ stop, ¬ stop `suffix_of` strip text)
     [ lit "<|user|>"; lit "<|end|>"; lit "<|endoftext|>"; [LF; LF] ]).
Proof.
  intros Hrun Htext.
  destruct (llama_success_run _ _ _ Hrun Htext) as (? & ? & ? & _ & ->).
  split; [done|]. split; [done|]. split; [apply strip_stripped|].
  intros Hall. eapply Forall_impl; [exact Hall|]. simpl.
  intros stop Hno [before Hsuffix]. apply Hno.
  eapply substring_trans; [|apply strip_substring].
  exists before, []. by rewrite app_nil_r.
Qed.

(** C7: in a run of the Apple-Silicon adapter, every load names the
    fixed base model ['mlx-community/Qwen2.5-7B-Instruct-4bit'] as the
    model and passes the request's [modelPath] as [adapter_path],
    whatever the request. *)
Theorem mlx_load_arguments stdin c :
  c ∈ called (run (mlx_inference.main stdin)) →
  match c with
  | MlxLoad path_or_hf_repo adapter_path =>
      path_or_hf_repo = lit "mlx-community/Qwen2.5-7B-Instruct-4bit" ∧
      ∃ d, json_loads stdin = inr (VDict d) ∧
           d !! lit "modelPath" = Some adapter_path
  | ImportMlxLm | MlxGenerate _ _ _ => True
  | _ => False
  end.
Proof.
  intros Hc.
  destruct (planned_call _ _ _ _ (mlx_main_calls stdin) Hc)
    as (d & adapter_path & prompt & (Hloads & Hpath & Hprompt) & Hin).
  unfold mlx_plan in Hin.
  repeat (apply elem_of_cons in Hin as [->|Hin]);
    [done | eauto | done | by apply elem_of_nil in Hin].
Qed.

(** C10: when the request parses to an object that holds the key
    [maxTokens], whatever value it holds ([null] included) is forwarded
    unchecked: it is the cap of every generation call either adapter
    makes, the default 100 is not used; and once the request holds both
    required fields and the import and the load go through, each
    adapter does make its generation call, with that value as cap, and
    prints what that call returns. *)
Theorem present_max_tokens_is_forwarded stdin d given :
  json_loads stdin = inr (VDict d) →
  d !! lit "maxTokens" = Some given →
  (∀ c cap,
     c ∈ called (run (llama_inference.main stdin)) ∨
     c ∈ called (run (mlx_inference.main stdin)) →
     max_tokens_of c = Some cap →
     cap = given) ∧
  (∀ model_path prompt llm,
     d !! lit "modelPath" = Some model_path →
     d !! lit "prompt" = Some prompt →
     import_llama_cpp = inr tt →
     Llama model_path 2048 (-1) false = inr llm →
     called (run (llama_inference.main stdin)) =
       [ ImportLlamaCpp;
         LlamaNew model_path 2048 (-1) false;
         LlamaCall prompt (given)
           [ lit "<|user|>"; lit "<|end|>"; lit "<|endoftext|>"; [LF; LF] ] false ] ∧
     ∀ output text,
       llm_call llm prompt (given)
         [ lit "<|user|>"; lit "<|end|>"; lit "<|endoftext|>"; [LF; LF] ] false
         = inr output →
       completion_text output text →
       printed (run (llama_inference.main stdin)) =
         [json_dumps (success_response (strip text))]) ∧
  (∀ adapter_path prompt model tokenizer,
     d !! lit "modelPath" = Some adapter_path →
     d !! lit "prompt" = Some prompt →
     import_mlx_lm = inr tt →
     load (lit "mlx-community/Qwen2.5-7B-Instruct-4bit") adapter_path =
       inr (model, tokenizer) →
     called (run (mlx_inference.main stdin)) =
       [ ImportMlxLm;
         MlxLoad (lit "mlx-community/Qwen2.5-7B-Instruct-4bit") adapter_path;
         MlxGenerate prompt (given) false ] ∧
     ∀ raw,
       generate model tokenizer prompt (given) false = inr (VStr raw) →
       printed (run (mlx_inference.main stdin)) =
         [json_dumps (success_response (clean_response raw))]).
Proof.
  intros Hloads Hkey. split; [|split].
  - intros c cap Hc Hcap.
    assert (∃ d' model_path prompt,
      request_of stdin d' model_path prompt ∧
      (c ∈ llama_plan d' model_path prompt ∨ c ∈ mlx_plan d' model_path prompt))
      as (d' & model_path & prompt & (Hloads' & _) & Hin).
    { destruct Hc as [Hc|Hc].
      - destruct (planned_call _ _ _ _ (llama_main_calls stdin) Hc)
          as (? & ? & ? & ? & ?); eauto 10.
      - destruct (planned_call _ _ _ _ (mlx_main_calls stdin) Hc)
          as (? & ? & ? & ? & ?); eauto 10. }
    assert (d' = d) as -> by congruence.
    unfold llama_plan, mlx_plan in Hin. rewrite Hkey in Hin. simpl in Hin.
    destruct Hin as [Hin|Hin];
      repeat (apply elem_of_cons in Hin as [->|Hin]); simplify_eq/=;
      try done; by apply elem_of_nil in Hin.
  - intros model_path prompt llm Hpath Hprompt Himport Hnew.
    pose proof (llama_generation_invoked stdin d model_path prompt llm
                  (conj Hloads (conj Hpath Hprompt)) Himport Hnew) as Hrun.
    unfold llama_plan in Hrun. by rewrite Hkey in Hrun.
  - intros adapter_path prompt model tokenizer Hpath Hprompt Himport Hload.
    pose proof (mlx_generation_invoked stdin d adapter_path prompt model
                  tokenizer (conj Hloads (conj Hpath Hprompt)) Himport Hload)
      as Hrun.
    unfold mlx_plan in Hrun. by rewrite Hkey in Hrun.
Qed.

(** C1, amended: when the Apple-Silicon run gets the generated text
    [raw], the result it prints is what the description yields from
    [raw] once its leading and trailing whitespace is stripped: the five
    sentinels [<|user|>], [<|end|>], [<|endoftext|>], [<|im_end|>],
    blank line are processed in that order, each cutting the current
    text just before its first occurrence when there is one, and the
    outcome is stripped. *)
Theorem mlx_result_postprocessed_after_strip stdin raw :
  mlx_generates stdin (VStr raw) →
  ∃ result,
    printed (run (mlx_inference.main stdin)) =
      [json_dumps (success_response result)] ∧
    postprocessed (strip raw) result.
Proof.
  intros Hrun. destruct (mlx_success_run _ _ Hrun) as (? & ? & ? & _ & ->).
  exists (clean_response raw). split; [done|].
  apply clean_response_postprocessed.
Qed.

(** C8: when the Apple-Silicon run gets the generated text [raw], none
    of the five sentinels occurs anywhere in the result it prints, and
    the result is a contiguous substring of [raw]. *)
Theorem mlx_result_sentinel_free stdin raw :
  mlx_generates stdin (VStr raw) →
  ∃ result,
    printed (run (mlx_inference.main stdin)) =
      [json_dumps (success_response result)] ∧
    Forall (λ sentinel, ¬ substring_of sentinel result)
      [ lit "<|user|>"; lit "<|end|>"; lit "<|endoftext|>"; lit "<|im_end|>";
        [LF; LF] ] ∧
    substring_of result raw.
Proof.
  intros Hrun. destruct (mlx_success_run _ _ Hrun) as (? & ? & ? & _ & ->).
  exists (clean_response raw). split; [done|].
  apply clean_response_clear.
Qed.

End adapters.

(** ** Runs against the stub collaborators *)

Section stub_runs.
#[local] Existing Instances Stub.json Stub.interpreter.

#[local] Abbreviation llama_main text :=
  (@llama_inference.main Stub.json Stub.interpreter (Stub.llama text)).
#[local] Abbreviation mlx_main response :=
  (@mlx_inference.main Stub.json Stub.interpreter (Stub.mlx response)).

Example llama_run_plain :
  run (llama_main (lit "  find users ") Stub.request_plain) =
  RunResult [lit "ok find users"]
    [ ImportLlamaCpp;
      LlamaNew (VStr (lit "m.gguf")) 2048 (-1) false;
      LlamaCall (VStr (lit "list all users")) (VInt 100)
        [ lit "<|user|>"; lit "<|end|>"; lit "<|endoftext|>"; [LF; LF] ]
        false ]
    0.
Proof. vm_compute. reflexivity. Qed.

Example llama_run_no_prompt :
  run (llama_main (lit "find users") Stub.request_no_prompt) =
  RunResult [lit "error 'prompt'"] [] 1.
Proof. vm_compute. reflexivity. Qed.

Example mlx_run_malformed :
  run (mlx_main (lit "find users") (lit "modelPath=m")) =
  RunResult [lit "error Expecting value"] [] 1.
Proof. vm_compute. reflexivity. Qed.

Example mlx_run_null_cap :
  run (mlx_main (lit "find users<|im_end|>") Stub.request_null_cap) =
  RunResult [lit "ok find users"]
    [ ImportMlxLm;
      MlxLoad (lit "mlx-community/Qwen2.5-7B-Instruct-4bit")
        (VStr (lit "m.gguf"));
      MlxGenerate (VStr (lit "list all users")) VNone false ]
    0.
Proof. vm_compute. reflexivity. Qed.

Ltac made := vm_compute; repeat constructor.

Lemma omitted_max_tokens_is_100_witness :
  json_loads Stub.request_plain = inr (VDict Stub.object_plain) ∧
  Stub.object_plain !! lit "maxTokens" = None ∧
  called (run (llama_main (lit "find users") Stub.request_plain)) =
    [ ImportLlamaCpp;
      LlamaNew (VStr (lit "m.gguf")) 2048 (-1) false;
      LlamaCall (VStr (lit "list all users")) (VInt 100)
        [ lit "<|user|>"; lit "<|end|>"; lit "<|endoftext|>"; [LF; LF] ]
        false ] ∧
  called (run (mlx_main (lit "find users") Stub.request_plain)) =
    [ ImportMlxLm;
      MlxLoad (lit "mlx-community/Qwen2.5-7B-Instruct-4bit")
        (VStr (lit "m.gguf"));
      MlxGenerate (VStr (lit "list all users")) (VInt 100) false ] ∧
  printed (run (llama_main (lit "find users") Stub.request_plain)) =
    [json_dumps (success_response (lit "find users"))] ∧
  printed (run (mlx_main (lit "find users") Stub.request_plain)) =
    [json_dumps (success_response (lit "find users"))].
Proof.
  destruct (@omitted_max_tokens_is_100 Stub.json Stub.interpreter
              (Stub.llama (lit "find users")) (Stub.mlx (lit "find users"))
              Stub.request_plain Stub.object_plain eq_refl eq_refl)
    as (_ & Hllama & Hmlx).
  destruct (Hllama (VStr (lit "m.gguf")) (VStr (lit "list all users")) tt
              eq_refl eq_refl eq_refl eq_refl) as [Hcalls Hprinted].
  destruct (Hmlx (VStr (lit "m.gguf")) (VStr (lit "list all users")) tt tt
              eq_refl eq_refl eq_refl eq_refl) as [Hcalls' Hprinted'].
  split; [reflexivity|]. split; [reflexivity|].
  split; [exact Hcalls|]. split; [exact Hcalls'|]. split.
  - refine (Hprinted _ (lit "find users") eq_refl _).
    do 3 eexists. repeat split; reflexivity.
  - exact (Hprinted' (lit "find users") eq_refl).
Defined.

Lemma llama_call_arguments_witness :
  let c := LlamaNew (VStr (lit "m.gguf")) 2048 (-1) false in
  c ∈ called (run (llama_main (lit "find users") Stub.request_plain)) ∧
  (2048 = 2048 ∧ -1 = -1 ∧ false = false ∧
   ∃ d, json_loads Stub.request_plain = inr (VDict d) ∧
        d !! lit "modelPath" = Some (VStr (lit "m.gguf"))).
Proof.
  intros c.
  assert (c ∈ called (run (llama_main (lit "find users") Stub.request_plain)))
    as Hc by made.
  split; [done|].
  exact (proj1 (@llama_call_arguments Stub.json Stub.interpreter
                  (Stub.llama (lit "find users")) Stub.request_plain) c Hc).
Defined.

Lemma llama_completes_stub text :
  ∃ output,
    @llama_completes Stub.json (Stub.llama text) Stub.request_plain output ∧
    completion_text output text.
Proof.
  eexists. split.
  - exists Stub.object_plain, (VStr (lit "m.gguf")),
      (VStr (lit "list all users")), tt.
    repeat split; reflexivity.
  - do 3 eexists. repeat split; reflexivity.
Defined.

Lemma llama_result_is_stripped_text_witness :
  Forall (λ stop, ¬ Spec.substring_of stop (lit "  find users "))
    [ lit "<|user|>"; lit "<|end|>"; lit "<|endoftext|>"; [LF; LF] ] ∧
  printed (run (llama_main (lit "  find users ") Stub.request_plain)) =
    [json_dumps (success_response (lit "find users"))] ∧
  Forall (λ stop, ¬ stop `suffix_of` lit "find users")
    [ lit "<|user|>"; lit "<|end|>"; lit "<|endoftext|>"; [LF; LF] ].
Proof.
  assert (Forall (λ stop, ¬ Spec.substring_of stop (lit "  find users "))
            [ lit "<|user|>"; lit "<|end|>"; lit "<|endoftext|>"; [LF; LF] ])
    as Hhonoured by (repeat constructor; apply find_absent; reflexivity).
  destruct (llama_completes_stub (lit "  find users ")) as (output & Hrun & Htext).
  destruct (@llama_result_is_stripped_text Stub.json Stub.interpreter
              (Stub.llama (lit "  find users ")) Stub.request_plain
              output (lit "  find users ") Hrun Htext)
    as (Hprinted & _ & _ & Hsuffix).
  split; [exact Hhonoured|]. split; [exact Hprinted | exact (Hsuffix Hhonoured)].
Defined.

Lemma mlx_load_arguments_witness :
  let c := MlxLoad (lit "mlx-community/Qwen2.5-7B-Instruct-4bit")
             (VStr (lit "m.gguf")) in
  c ∈ called (run (mlx_main (lit "find users") Stub.request_plain)) ∧
  (lit "mlx-community/Qwen2.5-7B-Instruct-4bit"
     = lit "mlx-community/Qwen2.5-7B-Instruct-4bit" ∧
   ∃ d, json_loads Stub.request_plain = inr (VDict d) ∧
        d !! lit "modelPath" = Some (VStr (lit "m.gguf"))).
Proof.
  intros c.
  assert (c ∈ called (run (mlx_main (lit "find users") Stub.request_plain)))
    as Hc by made.
  split; [done|].
  exact (@mlx_load_arguments Stub.json Stub.interpreter
           (Stub.mlx (lit "find users")) Stub.request_plain c Hc).
Defined.

Lemma present_max_tokens_is_forwarded_witness :
  json_loads Stub.request_null_cap = inr (VDict Stub.object_null_cap) ∧
  Stub.object_null_cap !! lit "maxTokens" = Some VNone ∧
  called (run (llama_main (lit "find users") Stub.request_null_cap)) =
    [ ImportLlamaCpp;
      LlamaNew (VStr (lit "m.gguf")) 2048 (-1) false;
      LlamaCall (VStr (lit "list all users")) (VNone)
        [ lit "<|user|>"; lit "<|end|>"; lit "<|endoftext|>"; [LF; LF] ]
        false ] ∧
  called (run (mlx_main (lit "find users") Stub.request_null_cap)) =
    [ ImportMlxLm;
      MlxLoad (lit "mlx-community/Qwen2.5-7B-Instruct-4bit")
        (VStr (lit "m.gguf"));
      MlxGenerate (VStr (lit "list all users")) (VNone) false ] ∧
  printed (run (llama_main (lit "find users") Stub.request_null_cap)) =
    [json_dumps (success_response (lit "find users"))] ∧
  printed (run (mlx_main (lit "find users") Stub.request_null_cap)) =
    [json_dumps (success_response (lit "find users"))].
Proof.
  destruct (@present_max_tokens_is_forwarded Stub.json Stub.interpreter
              (Stub.llama (lit "find users")) (Stub.mlx (lit "find users"))
              Stub.request_null_cap Stub.object_null_cap VNone eq_refl eq_refl)
    as (_ & Hllama & Hmlx).
  destruct (Hllama (VStr (lit "m.gguf")) (VStr (lit "list all users")) tt
              eq_refl eq_refl eq_refl eq_refl) as [Hcalls Hprinted].
  destruct (Hmlx (VStr (lit "m.gguf")) (VStr (lit "list all users")) tt tt
              eq_refl eq_refl eq_refl eq_refl) as [Hcalls' Hprinted'].
  split; [reflexivity|]. split; [reflexivity|].
  split; [exact Hcalls|]. split; [exact Hcalls'|]. split.
  - refine (Hprinted _ (lit "find users") eq_refl _).
    do 3 eexists. repeat split; reflexivity.
  - exact (Hprinted' (lit "find users") eq_refl).
Defined.

Lemma mlx_generates_stub raw :
  @mlx_generates Stub.json (Stub.mlx raw) Stub.request_plain (VStr raw).
Proof.
  exists Stub.object_plain, (VStr (lit "m.gguf")),
    (VStr (lit "list all users")), tt, tt.
  repeat split; reflexivity.
Defined.

Lemma mlx_result_postprocessed_after_strip_witness :
  ∃ result,
    printed (run (mlx_main (lit " find users<|end|> more ") Stub.request_plain)) =
      [json_dumps (success_response result)] ∧
    Spec.postprocessed (strip (lit " find users<|end|> more ")) result.
Proof.
  exact (@mlx_result_postprocessed_after_strip Stub.json Stub.interpreter
           (Stub.mlx (lit " find users<|end|> more ")) Stub.request_plain
           (lit " find users<|end|> more ") (mlx_generates_stub _)).
Defined.

Lemma mlx_result_sentinel_free_witness :
  ∃ result,
    printed (run (mlx_main (lit " find users<|end|> more ") Stub.request_plain)) =
      [json_dumps (success_response result)] ∧
    Forall (λ sentinel, ¬ Spec.substring_of sentinel result)
      [ lit "<|user|>"; lit "<|end|>"; lit "<|endoftext|>"; lit "<|im_end|>";
        [LF; LF] ] ∧
    Spec.substring_of result (lit " find users<|end|> more ").
Proof.
  exact (@mlx_result_sentinel_free Stub.json Stub.interpreter
           (Stub.mlx (lit " find users<|end|> more ")) Stub.request_plain
           (lit " find users<|end|> more ") (mlx_generates_stub _)).
Defined.

(** C1, as stated, fails.  The stub library generates ["\n\nfoo"] and
    the Apple-Silicon run prints the result ["foo"]: line 40 strips the
    raw text before the loop.  The description, read on the generated
    text, does not yield ["foo"]: the blank line is found at position 0
    and the text is cut to nothing. *)
Lemma mlx_result_not_postprocessed_raw :
  let raw := [LF; LF] ++ lit "foo" in
  @mlx_generates Stub.json (Stub.mlx raw) Stub.request_plain (VStr raw) ∧
  printed (run (mlx_main raw Stub.request_plain)) =
    [json_dumps (success_response (lit "foo"))] ∧
  ¬ Spec.postprocessed raw (lit "foo").
Proof.
  intros raw. split; [apply mlx_generates_stub|].
  split; [by vm_compute|].
  rewrite postprocessed_iff. vm_compute. discriminate.
Qed.

End stub_runs.

(** ** More on the stop-sequence loop *)

Section loop_facts.
Import Spec.

Lemma strip_idempotent text : strip (strip text) = strip text.
Proof.
  symmetry. apply stripped_strip.
  destruct (strip_stripped text) as (l & r & _ & _ & _ & Hhead & Hlast).
  exists [], []. by rewrite app_nil_r.
Qed.

Lemma stop_at_absent text sentinel :
  ¬ substring_of sentinel text → stop_at text sentinel = text.
Proof.
  intros Hno. symmetry. apply truncated_stop_at. by right.
Qed.

Lemma stop_at_prefix text sentinel : stop_at text sentinel `prefix_of` text.
Proof.
  destruct (proj2 (truncated_stop_at sentinel text _) eq_refl)
    as [(k & _ & ->) | [_ ->]]; [apply prefix_take | done].
Qed.

Lemma fold_stop_at_prefix stops text :
  fold_left stop_at stops text `prefix_of` text.
Proof.
  revert text; induction stops as [|s rest IH]; intros text; simpl; [done|].
  etrans; [apply IH | apply stop_at_prefix].
Qed.

Lemma fold_stop_at_absent stops text :
  Forall (λ s, ¬ substring_of s text) stops →
  fold_left stop_at stops text = text.
Proof.
  induction 1 as [|s rest Hs _ IH]; simpl; [done|].
  by rewrite stop_at_absent.
Qed.

Lemma rstrip_prefix text : rstrip text `prefix_of` text.
Proof.
  unfold rstrip.
  destruct (lstrip_split (reverse text)) as (l & Heq & _).
  exists (reverse l).
  rewrite <- reverse_app, <- Heq. by rewrite reverse_involutive.
Qed.

(** X11: the result is an initial part of the stripped raw text: the
    loop and the last strip only ever drop a tail. *)
Theorem clean_response_prefix raw :
  clean_response raw `prefix_of` strip raw.
Proof.
  unfold clean_response, stop_loop.
  pose proof (fold_stop_at_prefix stop_sequences (strip raw)) as Hcut.
  set (cut := fold_left stop_at stop_sequences (strip raw)) in *.
  etrans; [|exact Hcut].
  unfold strip at 1. rewrite lstrip_fixed; [apply rstrip_prefix|].
  destruct (strip_stripped raw) as (_ & _ & _ & _ & _ & Hhead & _).
  intros c Hc. apply Hhead.
  destruct Hcut as [rest ->], cut; [done|]. exact Hc.
Qed.

(** X12: cleaning is idempotent: a result fed through lines 40 to 48
    again comes out unchanged, and in particular has no whitespace left
    at either end. *)
Theorem clean_response_idempotent raw :
  clean_response (clean_response raw) = clean_response raw ∧
  strip (clean_response raw) = clean_response raw.
Proof.
  assert (strip (clean_response raw) = clean_response raw) as Hstrip
    by apply strip_idempotent.
  split; [|done].
  unfold clean_response at 1. rewrite Hstrip. unfold stop_loop.
  rewrite fold_stop_at_absent; [done|].
  apply clean_response_clear.
Qed.

(** X13: the loop changes nothing exactly when no sentinel occurs in the
    stripped raw text: then, and only then, the Apple-Silicon result is
    the plain [strip] that the CPU/CUDA adapter applies. *)
Theorem clean_response_is_strip_iff raw :
  clean_response raw = strip raw ↔
  Forall (λ sentinel, ¬ substring_of sentinel (strip raw))
    [ lit "<|user|>"; lit "<|end|>"; lit "<|endoftext|>"; lit "<|im_end|>";
      [LF; LF] ].
Proof.
  split.
  - intros Heq. rewrite <- Heq. apply clean_response_clear.
  - intros Hno. unfold clean_response, stop_loop.
    rewrite fold_stop_at_absent by exact Hno. apply strip_idempotent.
Qed.

End loop_facts.

(** ** The loop cuts at the earliest sentinel *)

Section earliest_facts.
Import Spec Earliest.

Lemma compatible_app x y after after' :
  x ++ after = y ++ after' → compatible x y = true.
Proof.
  intros [[k [-> _]] | [k [-> _]]]%app_eq_inv; unfold compatible;
    apply orb_true_iff; [left | right]; apply startswith_true; eauto.
Qed.

Lemma occurs_at_end part text i :
  occurs_at part text i → (i + length part ≤ length text)%nat.
Proof.
  intros (before & after & -> & <-). rewrite !length_app. lia.
Qed.

Lemma occurs_at_drop part text i :
  occurs_at part text i → ∃ after, drop i text = part ++ after.
Proof.
  intros (before & after & -> & <-). exists after. by rewrite drop_app_length.
Qed.

Lemma occurs_at_of_take part text m i :
  occurs_at part (take m text) i → occurs_at part text i.
Proof.
  intros (before & after & Heq & Hlen).
  exists before, (after ++ drop m text). split; [|done].
  rewrite <- (take_drop m text) at 1. rewrite Heq. by rewrite <- !app_assoc.
Qed.

Lemma occurs_at_in_take part text m i :
  occurs_at part text i → (i + length part ≤ m)%nat →
  occurs_at part (take m text) i.
Proof.
  intros (before & after & -> & <-) Hm.
  exists before, (take (m - length before - length part) after).
  split; [|done].
  rewrite take_app_ge by lia. f_equal.
  rewrite take_app_ge by lia. done.
Qed.

(** When [b] starts strictly inside an occurrence of [a], the check
    [straddles a b] says so. *)
Lemma straddles_complete a b text j o :
  occurs_at a text j → occurs_at b text (j + o) →
  (0 < o < length a)%nat → straddles a b = true.
Proof.
  intros Ha [after_b Hb]%occurs_at_drop Ho.
  destruct Ha as (before & after_a & -> & <-).
  rewrite <- drop_drop, drop_app_length, drop_app_le in Hb by lia.
  unfold straddles. apply existsb_exists. exists o. split.
  - apply in_seq. lia.
  - by eapply compatible_app.
Qed.

Lemma sentinel_at_app stops stops' text i :
  sentinel_at (stops ++ stops') text i ↔
  sentinel_at stops text i ∨ sentinel_at stops' text i.
Proof.
  unfold sentinel_at. split.
  - intros (stop & [Hin|Hin]%elem_of_app & Hat); eauto.
  - intros [(stop & Hin & Hat) | (stop & Hin & Hat)];
      exists stop; (split; [apply elem_of_app; auto | done]).
Qed.

Lemma sentinel_at_one stop text i :
  sentinel_at [stop] text i ↔ occurs_at stop text i.
Proof.
  unfold sentinel_at. split.
  - by intros (? & ->%list_elem_of_singleton & Hat).
  - intros Hat. exists stop. split; [by apply list_elem_of_singleton | done].
Qed.

(** One iteration keeps the cut at the leftmost sentinel start, as long
    as no sentinel already passed can begin inside the current one. *)
Lemma stop_at_leftmost passed stop text m :
  leftmost passed text m →
  forallb (λ before, negb (straddles stop before)) passed = true →
  ∃ m', stop_at (take m text) stop = take m' text ∧
        leftmost (passed ++ [stop]) text m'.
Proof.
  intros (Hlen & Hmin & Hat) Hsep.
  assert (∀ before j o, before ∈ passed → occurs_at stop text j →
            occurs_at before text (j + o) → ¬ (0 < o < length stop)%nat)
    as Hclear.
  { intros before j o Hin Hs Hb Ho.
    rewrite forallb_forall in Hsep.
    specialize (Hsep before (proj1 (list_elem_of_In _ _) Hin)).
    by rewrite (straddles_complete _ _ _ _ _ Hs Hb Ho) in Hsep. }
  destruct (proj2 (truncated_stop_at stop (take m text) _) eq_refl)
    as [(p & [Hp Hfirst] & ->) | [Hno ->]].
  - pose proof (occurs_at_end _ _ _ Hp) as Hend.
    rewrite length_take in Hend.
    exists p. split; [rewrite take_take; f_equal; lia|].
    split; [lia|]. split.
    + intros j [Hj | Hj%sentinel_at_one]%sentinel_at_app.
      * apply Hmin in Hj. lia.
      * destruct (decide (j < p)%nat) as [Hlt|]; [|lia].
        apply (occurs_at_in_take _ _ m) in Hj; [|lia].
        apply Hfirst in Hj. lia.
    + left. apply sentinel_at_app. right. apply sentinel_at_one.
      by eapply occurs_at_of_take.
  - exists m. split; [done|].
    assert (∀ j, occurs_at stop text j → (m ≤ j)%nat) as Hstop.
    { intros j Hj. destruct (decide (j < m)%nat) as [Hlt|]; [|lia].
      destruct (decide (j + length stop ≤ m)%nat) as [Hin|Hout].
      - destruct Hno. apply substring_occurs. exists j.
        by apply occurs_at_in_take.
      - pose proof (occurs_at_end _ _ _ Hj) as Hend.
        destruct Hat as [(before & Hbefore & Hb) | [-> _]]; [|lia].
        destruct (Hclear before j (m - j)%nat Hbefore Hj); [|lia].
        by replace (j + (m - j))%nat with m by lia. }
    split; [done|]. split.
    + intros j [Hj | Hj%sentinel_at_one]%sentinel_at_app; auto.
    + destruct Hat as [Hat | [-> Hnone]].
      * left. apply sentinel_at_app. by left.
      * right. split; [done|].
        intros j [Hj | Hj%sentinel_at_one]%sentinel_at_app.
        -- by apply (Hnone j).
        -- apply Hno, substring_occurs. exists j.
           apply occurs_at_in_take; [done|]. by apply occurs_at_end.
Qed.

Lemma fold_stop_at_leftmost stops passed text m :
  leftmost passed text m → separated passed stops = true →
  ∃ m', fold_left stop_at stops (take m text) = take m' text ∧
        leftmost (passed ++ stops) text m'.
Proof.
  revert passed m; induction stops as [|stop rest IH]; intros passed m Hm Hsep.
  - exists m. by rewrite app_nil_r.
  - simpl in *. apply andb_true_iff in Hsep as [Hstop Hrest].
    destruct (stop_at_leftmost _ _ _ _ Hm Hstop) as (m1 & -> & Hm1).
    destruct (IH _ _ Hm1 Hrest) as (m2 & -> & Hm2).
    exists m2. by rewrite <- app_assoc in Hm2.
Qed.

Lemma leftmost_earliest_cut stops text m :
  leftmost stops text m → earliest_cut stops text (take m text).
Proof.
  intros (_ & Hmin & [Hat | [-> Hnone]]).
  - left. eauto.
  - right. by rewrite firstn_all.
Qed.

Lemma earliest_cut_unique stops text r1 r2 :
  earliest_cut stops text r1 → earliest_cut stops text r2 → r1 = r2.
Proof.
  intros [(m1 & Hat1 & Hmin1 & ->) | [Hno1 ->]]
         [(m2 & Hat2 & Hmin2 & ->) | [Hno2 ->]].
  - apply Hmin1 in Hat2. apply Hmin2 in Hat1. f_equal. lia.
  - by destruct (Hno2 m1).
  - by destruct (Hno1 m2).
  - done.
Qed.

Lemma earliest_cut_members stops stops' text result :
  (∀ stop, stop ∈ stops ↔ stop ∈ stops') →
  earliest_cut stops text result → earliest_cut stops' text result.
Proof.
  intros Hsame.
  assert (∀ j, sentinel_at stops text j ↔ sentinel_at stops' text j) as Hat.
  { intros j. unfold sentinel_at. split; intros (stop & Hin & Hocc);
      exists stop; (split; [by apply Hsame | done]). }
  intros [(m & Hm & Hmin & ->) | [Hnone ->]].
  - left. exists m. split; [by apply Hat|]. split; [|done].
    intros j Hj. by apply Hmin, Hat.
  - right. split; [|done]. intros j Hj. by apply (Hnone j), Hat.
Qed.

(** Sentinels that are pairwise apart are separated in whatever order
    they are listed. *)
Lemma apart_separated passed stops :
  NoDup (passed ++ stops) →
  (∀ a b, a ∈ passed ++ stops → b ∈ passed ++ stops → a ≠ b →
          straddles a b = false) →
  separated passed stops = true.
Proof.
  revert passed; induction stops as [|stop rest IH]; intros passed Hnodup Hpair.
  - done.
  - simpl. apply andb_true_iff. split.
    + apply forallb_forall. intros before Hbefore%list_elem_of_In.
      rewrite Hpair; [done | | |].
      * apply elem_of_app. right. by left.
      * apply elem_of_app. by left.
      * intros Heq. apply NoDup_app in Hnodup as (_ & Hdisjoint & _).
        apply (Hdisjoint before Hbefore). rewrite <- Heq. by left.
    + apply IH; rewrite <- app_assoc; done.
Qed.

Lemma apart_pairwise stops a b :
  apart stops = true → a ∈ stops → b ∈ stops → a ≠ b →
  straddles a b = false.
Proof.
  unfold apart. rewrite forallb_forall.
  intros Hall Ha%list_elem_of_In Hb%list_elem_of_In Hne.
  specialize (Hall a Ha). rewrite forallb_forall in Hall.
  specialize (Hall b Hb). apply orb_true_iff in Hall as [Heq|Hno].
  - by apply bool_decide_eq_true in Heq.
  - by apply negb_true_iff.
Qed.

(** Any listing of sentinels that are pairwise apart is cut at the
    earliest of them. *)
Lemma fold_stop_at_earliest stops text :
  NoDup stops → apart stops = true →
  earliest_cut stops text (fold_left stop_at stops text).
Proof.
  intros Hnodup Hapart.
  assert (leftmost [] text (length text)) as Hstart.
  { split; [done|]. split.
    - intros j (stop & Hin & _). by apply elem_of_nil in Hin.
    - right. split; [done|].
      intros j (stop & Hin & _). by apply elem_of_nil in Hin. }
  destruct (fold_stop_at_leftmost stops [] text _ Hstart) as (m & Hfold & Hm).
  { apply apart_separated; [done|]. simpl. intros a b.
    by apply apart_pairwise. }
  rewrite firstn_all in Hfold. rewrite Hfold.
  by apply leftmost_earliest_cut.
Qed.

(** X14: for the five sentinels of the script, the sentinel-by-sentinel
    loop is the single cut at the earliest sentinel: the text is cut at
    the leftmost position where any of the five starts, and left whole
    when none occurs.  The order of the list makes no difference to the
    outcome: the loop run over any reordering of the five sentinels
    gives the same text, because none of them can begin inside
    another. *)
Theorem stop_loop_cuts_at_earliest :
  (∀ text result,
     earliest_cut
       [ lit "<|user|>"; lit "<|end|>"; lit "<|endoftext|>"; lit "<|im_end|>";
         [LF; LF] ] text result ↔
     result = stop_loop text) ∧
  (∀ stops text,
     stops ≡ₚ [ lit "<|user|>"; lit "<|end|>"; lit "<|endoftext|>";
                lit "<|im_end|>"; [LF; LF] ] →
     fold_left stop_at stops text = stop_loop text).
Proof.
  assert (NoDup stop_sequences) as Hnodup
    by (apply (bool_decide_unpack _); vm_compute; exact I).
  assert (apart stop_sequences = true) as Hapart by (vm_compute; reflexivity).
  assert (∀ text, earliest_cut stop_sequences text (stop_loop text)) as Hloop.
  { intros text. by apply fold_stop_at_earliest. }
  split.
  - intros text result. split.
    + intros Hcut. exact (earliest_cut_unique _ _ _ _ Hcut (Hloop text)).
    + intros ->. apply Hloop.
  - intros stops text Hperm.
    apply (earliest_cut_unique stop_sequences text); [|apply Hloop].
    apply (earliest_cut_members stops).
    { intros stop. by rewrite Hperm. }
    apply fold_stop_at_earliest.
    + by rewrite Hperm.
    + unfold apart. apply forallb_forall. intros a Ha.
      apply forallb_forall. intros b Hb.
      apply list_elem_of_In in Ha, Hb. rewrite Hperm in Ha, Hb.
      destruct (decide (a = b)) as [->|Hne].
      * by rewrite bool_decide_eq_true_2.
      * by rewrite (apart_pairwise _ _ _ Hapart Ha Hb Hne), orb_true_r.
Qed.

Lemma stop_loop_cuts_at_earliest_witness :
  reverse stop_sequences ≡ₚ
    [ lit "<|user|>"; lit "<|end|>"; lit "<|endoftext|>"; lit "<|im_end|>";
      [LF; LF] ] ∧
  fold_left stop_at (reverse stop_sequences)
    (lit "keep" ++ [LF; LF] ++ lit "drop<|end|>tail") =
  stop_loop (lit "keep" ++ [LF; LF] ++ lit "drop<|end|>tail").
Proof.
  assert (reverse stop_sequences ≡ₚ stop_sequences) as Hperm
    by apply reverse_Permutation.
  split; [exact Hperm|].
  exact (proj2 stop_loop_cuts_at_earliest (reverse stop_sequences) _ Hperm).
Defined.

End earliest_facts.

(** ** Requests that are turned away, and libraries that fail *)

Section adapter_facts.
Context `{Json, Interpreter, LlamaCpp, MlxLm}.

Ltac open_bodies :=
  rewrite ?run_llama_main, ?run_mlx_main;
  unfold llama_inference.body, mlx_inference.body, import_Llama, new_Llama,
    call_llm, import_load_generate, call_load, call_generate, extern, lift,
    getitem, get, strip_method, mbind, M_bind.

(** X1: input that [json.loads] rejects ends either adapter with the
    failure object carrying the parser's message and exit status 1,
    before any library is imported. *)
Theorem malformed_input_run stdin e :
  json_loads stdin = inl e →
  run (llama_inference.main stdin) =
    RunResult [json_dumps (failure_response (str_of e))] [] 1 ∧
  run (mlx_inference.main stdin) =
    RunResult [json_dumps (failure_response (str_of e))] [] 1.
Proof.
  intros Hloads. open_bodies. by rewrite Hloads.
Qed.

(** X2: input that parses to anything but an object ([null], a number,
    a string, an array) fails at [input_data['modelPath']] with a
    [TypeError]: failure object, exit status 1, no library call. *)
Theorem non_object_input_run stdin v :
  json_loads stdin = inr v →
  (∀ d, v ≠ VDict d) →
  run (llama_inference.main stdin) =
    RunResult [json_dumps (failure_response (str_of (TypeError v)))] [] 1 ∧
  run (mlx_inference.main stdin) =
    RunResult [json_dumps (failure_response (str_of (TypeError v)))] [] 1.
Proof.
  intros Hloads Hshape. open_bodies. rewrite Hloads.
  destruct v; try done. by destruct (Hshape d).
Qed.

(** X3: a request object without [modelPath] fails with
    [KeyError('modelPath')], whether or not [prompt] is there too:
    [modelPath] is read first.  No library is imported. *)
Theorem missing_model_path_run stdin d :
  json_loads stdin = inr (VDict d) →
  d !! lit "modelPath" = None →
  run (llama_inference.main stdin) =
    RunResult
      [json_dumps (failure_response (str_of (KeyError (VStr (lit "modelPath")))))]
      [] 1 ∧
  run (mlx_inference.main stdin) =
    RunResult
      [json_dumps (failure_response (str_of (KeyError (VStr (lit "modelPath")))))]
      [] 1.
Proof.
  intros Hloads Hpath. open_bodies. rewrite Hloads. simpl. by rewrite Hpath.
Qed.

(** X4: a request object with [modelPath] but without [prompt] fails
    with [KeyError('prompt')], and no library is imported: the model is
    not loaded for a request that cannot be served. *)
Theorem missing_prompt_run stdin d model_path :
  json_loads stdin = inr (VDict d) →
  d !! lit "modelPath" = Some model_path →
  d !! lit "prompt" = None →
  run (llama_inference.main stdin) =
    RunResult
      [json_dumps (failure_response (str_of (KeyError (VStr (lit "prompt")))))]
      [] 1 ∧
  run (mlx_inference.main stdin) =
    RunResult
      [json_dumps (failure_response (str_of (KeyError (VStr (lit "prompt")))))]
      [] 1.
Proof.
  intros Hloads Hpath Hprompt. open_bodies. rewrite Hloads. simpl.
  rewrite Hpath. simpl. by rewrite Hprompt.
Qed.

(** X5: the CPU/CUDA run of a well-formed request, by the first library
    stage that fails.  A failed import stops after the import; a failed
    load stops after the load, so no generation is attempted; a failed
    generation stops after the three calls.  Each prints the failure
    object with that exception's message and exits with 1.  When the
    three stages succeed, the three calls are all the run makes. *)
Theorem llama_stage_failures stdin d model_path prompt :
  request_of stdin d model_path prompt →
  let cap := default (VInt 100) (d !! lit "maxTokens") in
  let failed e made :=
    run (llama_inference.main stdin) =
      RunResult [json_dumps (failure_response (str_of e))] made 1 in
  match import_llama_cpp with
  | inl e => failed e [ImportLlamaCpp]
  | inr _ =>
      match Llama model_path 2048 (-1) false with
      | inl e =>
          failed e [ImportLlamaCpp; LlamaNew model_path 2048 (-1) false]
      | inr llm =>
          match llm_call llm prompt cap llama_inference.stop false with
          | inl e =>
              failed e [ ImportLlamaCpp;
                         LlamaNew model_path 2048 (-1) false;
                         LlamaCall prompt cap llama_inference.stop false ]
          | inr _ =>
              called (run (llama_inference.main stdin)) =
                [ ImportLlamaCpp;
                  LlamaNew model_path 2048 (-1) false;
                  LlamaCall prompt cap llama_inference.stop false ]
          end
      end
  end.
Proof.
  intros Hreq cap failed. subst failed cap.
  pose proof Hreq as (Hloads & Hpath & Hprompt).
  destruct import_llama_cpp as [e|[]] eqn:Himport.
  { open_bodies. rewrite Hloads. simpl. rewrite Hpath. simpl.
    rewrite Hprompt. simpl. by rewrite Himport. }
  destruct (Llama model_path 2048 (-1) false) as [e|llm] eqn:Hnew.
  { open_bodies. rewrite Hloads. simpl. rewrite Hpath. simpl.
    rewrite Hprompt. simpl. rewrite Himport. simpl. by rewrite Hnew. }
  destruct (llm_call llm prompt (default (VInt 100) (d !! lit "maxTokens"))
              llama_inference.stop false) as [e|output] eqn:Hcall.
  { open_bodies. rewrite Hloads. simpl. rewrite Hpath. simpl.
    rewrite Hprompt. simpl. rewrite Himport. simpl. rewrite Hnew. simpl.
    by rewrite Hcall. }
  destruct (llama_completes_calls stdin output)
    as (d' & model_path' & prompt' & (Hloads' & Hpath' & Hprompt') & ->).
  { exists d, model_path, prompt, llm. auto. }
  unfold llama_plan. congruence.
Qed.



Ltac skip_failure := by (intros; simpl).
Ltac walk rule := apply after_bind, rule; [ | skip_failure ].

(** A body that returns has made its three calls. *)
Lemma llama_body_returns stdin :
  after (llama_inference.body stdin) start (λ p r,
    match r with
    | inr _ =>
        ∃ d model_path prompt,
          request_of stdin d model_path prompt ∧
          calls p = llama_plan d model_path prompt
    | inl _ => True
    end).
Proof.
  unfold llama_inference.body, import_Llama, new_Llama, call_llm, llama_plan.
  walk @after_lift. intros input_data Hloads.
  walk after_getitem. intros d model_path -> Hpath.
  walk after_getitem. intros ? prompt [= <-] Hprompt.
  walk after_get. intros ? [= <-].
  walk @after_extern. intros _ _.
  walk @after_extern. intros llm _.
  walk @after_extern. intros output _.
  walk after_getitem. intros ? choices _ _.
  walk after_getitem_int. intros choice.
  walk after_getitem. intros ? raw _ _.
  walk after_strip_method. intros text _.
  apply after_print. simpl. by exists d, model_path, prompt.
Qed.

Lemma mlx_body_returns stdin :
  after (mlx_inference.body stdin) start (λ p r,
    match r with
    | inr _ =>
        ∃ d adapter_path prompt,
          request_of stdin d adapter_path prompt ∧
          calls p = mlx_plan d adapter_path prompt
    | inl _ => True
    end).
Proof.
  unfold mlx_inference.body, import_load_generate, call_load, call_generate,
    mlx_plan.
  walk @after_lift. intros input_data Hloads.
  walk after_getitem. intros d adapter_path -> Hpath.
  walk after_getitem. intros ? prompt [= <-] Hprompt.
  walk after_get. intros ? [= <-].
  walk @after_extern. intros _ _.
  walk @after_extern. intros [model tokenizer] _.
  walk @after_extern. intros response _.
  walk after_strip_method. intros text _.
  apply after_print. simpl. by exists d, adapter_path, prompt.
Qed.

(** X8: exit status 0 is only ever reached by a full run: the request
    parsed to an object with [modelPath] and [prompt], the import, the
    load and the generation were each called once, in that order, and
    the one line printed is a success object. *)
Theorem exit_0_means_generated stdin :
  (status (run (llama_inference.main stdin)) = 0 →
   ∃ d model_path prompt text,
     request_of stdin d model_path prompt ∧
     called (run (llama_inference.main stdin)) =
       llama_plan d model_path prompt ∧
     printed (run (llama_inference.main stdin)) =
       [json_dumps (success_response text)]) ∧
  (status (run (mlx_inference.main stdin)) = 0 →
   ∃ d adapter_path prompt text,
     request_of stdin d adapter_path prompt ∧
     called (run (mlx_inference.main stdin)) =
       mlx_plan d adapter_path prompt ∧
     printed (run (mlx_inference.main stdin)) =
       [json_dumps (success_response text)]).
Proof.
  split.
  - rewrite run_llama_main.
    pose proof (llama_body_shape stdin) as [_ Hout].
    pose proof (llama_body_returns stdin) as Hret.
    unfold after in *.
    destruct (llama_inference.body stdin start) as [p [[e|code]|[]]];
      simpl in *; [done | done |].
    intros _. destruct Hout as [text Htext].
    destruct Hret as (d & model_path & prompt & Hreq & Hcalls).
    by exists d, model_path, prompt, text.
  - rewrite run_mlx_main.
    pose proof (mlx_body_shape stdin) as [_ Hout].
    pose proof (mlx_body_returns stdin) as Hret.
    unfold after in *.
    destruct (mlx_inference.body stdin start) as [p [[e|code]|[]]];
      simpl in *; [done | done |].
    intros _. destruct Hout as [text Htext].
    destruct Hret as (d & adapter_path & prompt & Hreq & Hcalls).
    by exists d, adapter_path, prompt, text.
Qed.

(** X9: no retry and no call out of turn.  Whatever the input and
    whatever the libraries do, the calls of a run are the first zero to
    three of import, load, generate, in that order: nothing is called
    twice, and generation is never called without a load before it. *)
Theorem adapters_follow_plan stdin :
  follows_plan stdin llama_plan (called (run (llama_inference.main stdin))) ∧
  follows_plan stdin mlx_plan (called (run (mlx_inference.main stdin))) ∧
  (length (called (run (llama_inference.main stdin))) ≤ 3)%nat ∧
  (length (called (run (mlx_inference.main stdin))) ≤ 3)%nat.
Proof.
  pose proof (llama_main_calls stdin) as Hllama.
  pose proof (mlx_main_calls stdin) as Hmlx.
  repeat split; try done.
  - destruct Hllama as [-> | (? & ? & ? & _ & Hpre%prefix_length)];
      [simpl; lia | done].
  - destruct Hmlx as [-> | (? & ? & ? & _ & Hpre%prefix_length)];
      [simpl; lia | done].
Qed.

(** X10: only three fields of the request matter.  Two requests whose
    objects agree on [modelPath], on [prompt] and on the cap
    ([maxTokens], or 100 without it) give the same run (same calls,
    same output, same exit status), whatever other fields they hold;
    in particular an explicit [maxTokens] of 100 and none at all are
    the same request. *)
Theorem only_three_fields_matter stdin stdin' d d' :
  json_loads stdin = inr (VDict d) →
  json_loads stdin' = inr (VDict d') →
  d !! lit "modelPath" = d' !! lit "modelPath" →
  d !! lit "prompt" = d' !! lit "prompt" →
  default (VInt 100) (d !! lit "maxTokens") =
    default (VInt 100) (d' !! lit "maxTokens") →
  run (llama_inference.main stdin) = run (llama_inference.main stdin') ∧
  run (mlx_inference.main stdin) = run (mlx_inference.main stdin').
Proof.
  intros Hloads Hloads' Hpath Hprompt Hcap.
  open_bodies. rewrite Hloads, Hloads'. simpl.
  by rewrite Hpath, Hprompt, Hcap.
Qed.

(** X15: a generation that is nothing but whitespace (or nothing at
    all) is a success with the empty result, in both adapters. *)
Theorem blank_generation_is_empty_success stdin raw :
  Forall (λ c, isspace c = true) raw →
  (mlx_generates stdin (VStr raw) →
   printed (run (mlx_inference.main stdin)) =
     [json_dumps (success_response [])] ∧
   status (run (mlx_inference.main stdin)) = 0) ∧
  (∀ output,
     llama_completes stdin output → completion_text output raw →
     printed (run (llama_inference.main stdin)) =
       [json_dumps (success_response [])] ∧
     status (run (llama_inference.main stdin)) = 0).
Proof.
  intros Hblank.
  assert (strip raw = []) as Hstrip.
  { unfold strip. by rewrite lstrip_all_spaces. }
  split.
  - intros Hrun. destruct (mlx_success_run _ _ Hrun) as (? & ? & ? & _ & ->).
    unfold clean_response. by rewrite Hstrip.
  - intros output Hrun Htext.
    destruct (llama_success_run _ _ _ Hrun Htext) as (? & ? & ? & _ & ->).
    by rewrite Hstrip.
Qed.

End adapter_facts.

(** ** Turned-away requests and failing libraries, on the stubs *)

Section faulty_runs.

#[local] Abbreviation users := (lit "find users").

Lemma request_plain_ok :
  @request_of Stub.json Stub.request_plain Stub.object_plain
    (VStr (lit "m.gguf")) (VStr (lit "list all users")).
Proof. repeat split; reflexivity. Defined.

Lemma malformed_input_run_witness :
  @json_loads Stub.json (lit "modelPath=m") =
    inl (LibraryError (lit "Expecting value")) ∧
  run (@llama_inference.main Stub.json Stub.interpreter (Stub.llama users)
         (lit "modelPath=m")) =
    RunResult [lit "error Expecting value"] [] 1.
Proof.
  split; [reflexivity|].
  exact (proj1 (@malformed_input_run Stub.json Stub.interpreter
                  (Stub.llama users) (Stub.mlx users) (lit "modelPath=m")
                  (LibraryError (lit "Expecting value")) eq_refl)).
Defined.

Lemma non_object_input_run_witness :
  @json_loads Faulty.json Faulty.request_array =
    inr (VList [VInt 1; VInt 2]) ∧
  (∀ d, VList [VInt 1; VInt 2] ≠ VDict d) ∧
  called (run (@mlx_inference.main Faulty.json Stub.interpreter
                 (Stub.mlx users) Faulty.request_array)) = [] ∧
  status (run (@mlx_inference.main Faulty.json Stub.interpreter
                 (Stub.mlx users) Faulty.request_array)) = 1.
Proof.
  assert (∀ d, VList [VInt 1; VInt 2] ≠ VDict d) as Hshape by done.
  split; [reflexivity|]. split; [exact Hshape|].
  rewrite (proj2 (@non_object_input_run Faulty.json Stub.interpreter
                    (Stub.llama users) (Stub.mlx users) Faulty.request_array
                    (VList [VInt 1; VInt 2]) eq_refl Hshape)).
  done.
Defined.

Lemma missing_model_path_run_witness :
  @json_loads Faulty.json Faulty.request_empty = inr (VDict ∅) ∧
  (∅ : gmap pystr value) !! lit "modelPath" = None ∧
  run (@llama_inference.main Faulty.json Stub.interpreter (Stub.llama users)
         Faulty.request_empty) =
    RunResult [lit "error 'modelPath'"] [] 1.
Proof.
  split; [reflexivity|]. split; [reflexivity|].
  exact (proj1 (@missing_model_path_run Faulty.json Stub.interpreter
                  (Stub.llama users) (Stub.mlx users) Faulty.request_empty
                  ∅ eq_refl eq_refl)).
Defined.

Lemma missing_prompt_run_witness :
  @json_loads Stub.json Stub.request_no_prompt =
    inr (VDict Stub.object_no_prompt) ∧
  Stub.object_no_prompt !! lit "modelPath" = Some (VStr (lit "m.gguf")) ∧
  Stub.object_no_prompt !! lit "prompt" = None ∧
  run (@mlx_inference.main Stub.json Stub.interpreter (Stub.mlx users)
         Stub.request_no_prompt) =
    RunResult [lit "error 'prompt'"] [] 1.
Proof.
  split; [reflexivity|]. split; [reflexivity|]. split; [reflexivity|].
  exact (proj2 (@missing_prompt_run Stub.json Stub.interpreter
                  (Stub.llama users) (Stub.mlx users) Stub.request_no_prompt
                  Stub.object_no_prompt (VStr (lit "m.gguf"))
                  eq_refl eq_refl eq_refl)).
Defined.

Lemma llama_stage_failures_witness :
  run (@llama_inference.main Stub.json Stub.interpreter Faulty.llama_unloadable
         Stub.request_plain) =
    RunResult [lit "error Failed to load model from file"]
      [ImportLlamaCpp; LlamaNew (VStr (lit "m.gguf")) 2048 (-1) false] 1.
Proof.
  exact (@llama_stage_failures Stub.json Stub.interpreter
           Faulty.llama_unloadable Stub.request_plain Stub.object_plain
           (VStr (lit "m.gguf")) (VStr (lit "list all users"))
           request_plain_ok).
Defined.




Lemma exit_0_means_generated_witness :
  status (run (@llama_inference.main Stub.json Stub.interpreter
                 (Stub.llama users) Stub.request_plain)) = 0 ∧
  ∃ d model_path prompt text,
    @request_of Stub.json Stub.request_plain d model_path prompt ∧
    called (run (@llama_inference.main Stub.json Stub.interpreter
                   (Stub.llama users) Stub.request_plain)) =
      llama_plan d model_path prompt ∧
    printed (run (@llama_inference.main Stub.json Stub.interpreter
                    (Stub.llama users) Stub.request_plain)) =
      [@json_dumps Stub.json (success_response text)].
Proof.
  split; [reflexivity|].
  exact (proj1 (@exit_0_means_generated Stub.json Stub.interpreter
                  (Stub.llama users) (Stub.mlx users) Stub.request_plain)
               eq_refl).
Defined.

Lemma only_three_fields_matter_witness :
  @json_loads Faulty.json Stub.request_plain = inr (VDict Stub.object_plain) ∧
  @json_loads Faulty.json Faulty.request_extra =
    inr (VDict Faulty.object_extra) ∧
  Faulty.object_extra !! lit "stream" = Some (VBool true) ∧
  Stub.object_plain !! lit "stream" = None ∧
  run (@llama_inference.main Faulty.json Stub.interpreter (Stub.llama users)
         Stub.request_plain) =
  run (@llama_inference.main Faulty.json Stub.interpreter (Stub.llama users)
         Faulty.request_extra).
Proof.
  split; [reflexivity|]. split; [reflexivity|]. split; [reflexivity|].
  split; [reflexivity|].
  exact (proj1 (@only_three_fields_matter Faulty.json Stub.interpreter
                  (Stub.llama users) (Stub.mlx users)
                  Stub.request_plain Faulty.request_extra
                  Stub.object_plain Faulty.object_extra
                  eq_refl eq_refl eq_refl eq_refl eq_refl)).
Defined.

Lemma blank_generation_is_empty_success_witness :
  Forall (λ c, isspace c = true) [LF; 0x20%N; LF] ∧
  printed (run (@mlx_inference.main Stub.json Stub.interpreter
                  (Stub.mlx [LF; 0x20%N; LF]) Stub.request_plain)) =
    [@json_dumps Stub.json (success_response [])] ∧
  status (run (@mlx_inference.main Stub.json Stub.interpreter
                 (Stub.mlx [LF; 0x20%N; LF]) Stub.request_plain)) = 0.
Proof.
  assert (Forall (λ c, isspace c = true) [LF; 0x20%N; LF]) as Hblank
    by (by repeat constructor).
  split; [exact Hblank|].
  exact (proj1 (@blank_generation_is_empty_success Stub.json Stub.interpreter
                  (Stub.llama users) (Stub.mlx [LF; 0x20%N; LF])
                  Stub.request_plain [LF; 0x20%N; LF] Hblank)
               (mlx_generates_stub _)).
Defined.

End faulty_runs.
